(** * txt2epub: the conversion pipeline of [convert.py]

    A shallow embedding of [txt_to_epub] (src/convert.py, lines 82-163):
    the language-specific chapter regular expressions, [re.split] over
    them, the chapter loop, and the calls to the collaborators (file
    read, language detection, the EPUB writer) as a trace of events. *)

From Stdlib Require Import Ascii String DecimalString.
From Stdlib Require Import Arith ZArith NArith Lia Bool List.
From Equations Require Import Equations.
Import ListNotations.

Set Implicit Arguments.

(** ** Python [str] values

    A Python 3 [str] is a sequence of Unicode code points.  The chapter
    patterns contain CJK characters, so a character is a code point and
    not a byte. *)

Definition char := N.
Definition text := list char.

(** Literals of the source file are written as Rocq strings (UTF-8
    bytes) and decoded to code points, as Python decodes its source. *)
Fixpoint utf8_decode (bs : list N) : text :=
  match bs with
  | [] => []
  | b0 :: r0 =>
    if (b0 <? 128)%N then b0 :: utf8_decode r0
    else match r0 with
    | [] => [b0]
    | b1 :: r1 =>
      if (b0 <? 224)%N
      then ((b0 mod 32) * 64 + b1 mod 64)%N :: utf8_decode r1
      else match r1 with
      | [] => [b0; b1]
      | b2 :: r2 =>
        if (b0 <? 240)%N
        then ((b0 mod 16) * 4096 + (b1 mod 64) * 64 + b2 mod 64)%N
               :: utf8_decode r2
        else match r2 with
        | [] => [b0; b1; b2]
        | b3 :: r3 =>
          ((b0 mod 8) * 262144 + (b1 mod 64) * 4096
           + (b2 mod 64) * 64 + b3 mod 64)%N :: utf8_decode r3
        end
      end
    end
  end.

Definition utf8 (s : string) : text :=
  utf8_decode (map N_of_ascii (list_ascii_of_string s)).

Fixpoint text_eqb (a b : text) : bool :=
  match a, b with
  | [], [] => true
  | x :: a', y :: b' => (x =? y)%N && text_eqb a' b'
  | _, _ => false
  end.

Definition mem (c : char) (cs : text) : bool := existsb (N.eqb c) cs.

Definition LF : char := 10%N.

(** ** The [re] module, for the fragment the two patterns use

    Modelled from CPython's [sre] engine: a compiled pattern is a
    sequence of opcodes matched left to right with backtracking.  *)

(** [\s] on a [str] pattern is [Py_UNICODE_ISSPACE]. *)
Definition is_space (c : char) : bool :=
  ((9 <=? c) && (c <=? 13) || (28 <=? c) && (c <=? 32)
   || (c =? 133) || (c =? 160) || (c =? 5760)
   || (8192 <=? c) && (c <=? 8202)
   || (c =? 8232) || (c =? 8233) || (c =? 8239) || (c =? 8287)
   || (c =? 12288))%N.

Inductive charset :=
| CS_LITERALS (cs : text)   (* [abc]: one of the listed characters *)
| CS_SPACE                  (* \s *)
| CS_ANY.                   (* .  (no DOTALL: anything but a line feed) *)

Definition in_charset (cs : charset) (c : char) : bool :=
  match cs with
  | CS_LITERALS l => mem c l
  | CS_SPACE => is_space c
  | CS_ANY => negb (c =? LF)%N
  end.

Inductive op :=
| AT_BEGINNING_LINE           (* ^ under re.M *)
| IN (cs : charset)           (* one character of the set *)
| MAX_REPEAT (cs : charset)   (* x*, greedy *)
| MARK.                       (* an opening or closing parenthesis *)

Definition pattern := list op.

(** [^] under [re.M]: at the beginning of the string or just after a
    line feed.  [prev] is the character before the current position. *)
Definition at_beginning_line (prev : option char) : bool :=
  match prev with
  | None => true
  | Some c => (c =? LF)%N
  end.

Definition all_nil (l : list text) : bool := forallb (fun x => match x with [] => true | _ => false end) l.

(** The state of one match attempt: [prev] the character before the
    current position, [cur] the characters consumed since the last mark
    (most recent first), [done] the pieces closed by earlier marks (most
    recent first). *)
Record mstate := MState { ms_prev : option char; ms_cur : text; ms_done : list text }.

Definition ms_step (c : char) (st : mstate) : mstate :=
  MState (Some c) (c :: ms_cur st) (ms_done st).

Definition ms_mark (st : mstate) : mstate :=
  MState (ms_prev st) [] (rev (ms_cur st) :: ms_done st).

Definition ms_pieces (st : mstate) : list text := rev (rev (ms_cur st) :: ms_done st).

(** The result of a successful match: the matched text cut at the marks
    (for a pattern with one group: before the group, the group, after
    it), the character before the end position, and the unmatched rest. *)
Record mresult := MResult { mr_pieces : list text; mr_prev : option char; mr_rest : text }.

Section Repeat.
Variable cs : charset.
Variable k : mstate -> text -> option mresult.

(** Greedy repetition: take as many characters as possible, then give
    characters back one at a time until the rest of the pattern matches. *)
Fixpoint max_repeat (st : mstate) (s : text) : option mresult :=
  match s with
  | c :: s' =>
    if in_charset cs c
    then match max_repeat (ms_step c st) s' with
         | Some r => Some r
         | None => k st s
         end
    else k st s
  | [] => k st s
  end.
End Repeat.

(** [sre_match]: match the pattern at the current position only.
    [must_advance] refuses an empty match (set by [split] after an empty
    match). *)
Fixpoint sre_match (p : pattern) (must_advance : bool) (st : mstate) (s : text)
  : option mresult :=
  match p with
  | [] =>
    let pieces := ms_pieces st in
    if must_advance && all_nil pieces then None
    else Some (MResult pieces (ms_prev st) s)
  | AT_BEGINNING_LINE :: p' =>
    if at_beginning_line (ms_prev st) then sre_match p' must_advance st s else None
  | IN cs :: p' =>
    match s with
    | c :: s' => if in_charset cs c then sre_match p' must_advance (ms_step c st) s' else None
    | [] => None
    end
  | MAX_REPEAT cs :: p' => max_repeat cs (sre_match p' must_advance) st s
  | MARK :: p' => sre_match p' must_advance (ms_mark st) s
  end.

(** A found match: the text skipped before it and the match itself. *)
Record found := Found { f_skipped : text; f_match : mresult }.

(** [sre_search]: try the pattern at the current position, then one
    character further, and so on; [must_advance] holds for the first
    attempt only. *)
Fixpoint sre_search (p : pattern) (must_advance : bool) (prev : option char) (s : text)
  : option found :=
  match sre_match p must_advance (MState prev [] []) s with
  | Some r => Some (Found [] r)
  | None =>
    match s with
    | [] => None
    | c :: s' =>
      match sre_search p false (Some c) s' with
      | Some (Found skipped r) => Some (Found (c :: skipped) r)
      | None => None
      end
    end
  end.

Definition m_text (r : mresult) : text := concat (mr_pieces r).
Definition is_nil (t : text) : bool := match t with [] => true | _ => false end.

(** [m.group(1)] for a pattern with one pair of marks. *)
Definition group1 (r : mresult) : text := nth 1 (mr_pieces r) [].

(** *** Every match is a prefix of the text it was tried on

    These facts bound the scan of [finditer] and [re_split] below. *)

Definition ms_text (st : mstate) : text := concat (rev (ms_done st)) ++ rev (ms_cur st).

Lemma ms_pieces_text st : concat (ms_pieces st) = ms_text st.
Proof.
  unfold ms_pieces, ms_text. simpl. rewrite concat_app. simpl.
  now rewrite app_nil_r.
Qed.

Lemma ms_text_step c st s : ms_text (ms_step c st) ++ s = ms_text st ++ c :: s.
Proof.
  unfold ms_text, ms_step. simpl. now rewrite <- !app_assoc.
Qed.

Lemma ms_text_mark st : ms_text (ms_mark st) = ms_text st.
Proof.
  unfold ms_text, ms_mark. simpl. rewrite concat_app. simpl.
  now rewrite !app_nil_r.
Qed.

Lemma all_nil_concat l : all_nil l = is_nil (concat l).
Proof.
  induction l as [|x l IH]; simpl; [reflexivity|].
  destruct x; simpl; [exact IH | reflexivity].
Qed.

(** What a continuation of the matcher guarantees. *)
Definition consumes (ma : bool) (k : mstate -> text -> option mresult) : Prop :=
  forall st s r, k st s = Some r ->
    m_text r ++ mr_rest r = ms_text st ++ s /\ (ma = true -> m_text r <> []).

Lemma max_repeat_consumes ma cs k : consumes ma k -> consumes ma (max_repeat cs k).
Proof.
  intros Hk st s. revert st.
  induction s as [|c s IH]; intros st r; simpl.
  - apply Hk.
  - destruct (in_charset cs c); [|apply Hk].
    destruct (max_repeat cs k (ms_step c st) s) as [r'|] eqn:E.
    + intros [= <-]. apply IH in E. now rewrite ms_text_step in E.
    + apply Hk.
Qed.

Lemma sre_match_consumes p ma : consumes ma (sre_match p ma).
Proof.
  induction p as [|o p IH]; intros st s r; simpl.
  - rewrite all_nil_concat, ms_pieces_text.
    destruct (ma && is_nil (ms_text st)) eqn:E; [discriminate|].
    intros [= <-]. unfold m_text; simpl. rewrite ms_pieces_text. split; [reflexivity|].
    intros ->. simpl in E. now destruct (ms_text st).
  - destruct o.
    + destruct (at_beginning_line (ms_prev st)); [apply IH | discriminate].
    + destruct s as [|c s]; [discriminate|].
      destruct (in_charset cs c); [|discriminate].
      intros H. apply IH in H. now rewrite ms_text_step in H.
    + apply max_repeat_consumes, IH.
    + intros H. apply IH in H. now rewrite ms_text_mark in H.
Qed.

Lemma sre_search_consumes p ma prev s f :
  sre_search p ma prev s = Some f ->
  s = f_skipped f ++ m_text (f_match f) ++ mr_rest (f_match f)
  /\ (ma = true -> f_skipped f ++ m_text (f_match f) <> []).
Proof.
  revert ma prev f. induction s as [|c s IH]; intros ma prev f; simpl.
  - destruct (sre_match p ma (MState prev [] []) []) as [r|] eqn:E; [|discriminate].
    intros [= <-]. apply sre_match_consumes in E. destruct E as [E1 E2].
    cbn in E1. simpl. split; [now rewrite E1 | exact E2].
  - destruct (sre_match p ma (MState prev [] []) (c :: s)) as [r|] eqn:E.
    + intros [= <-]. apply sre_match_consumes in E. destruct E as [E1 E2].
      cbn in E1. simpl. split; [now rewrite E1 | exact E2].
    + destruct (sre_search p false (Some c) s) as [[sk r]|] eqn:E'; [|discriminate].
      intros [= <-]. apply IH in E'. simpl in *. destruct E' as [E' _].
      split; [now rewrite <- E' | discriminate].
Qed.

(** The measure of the scan: the text left, and whether an empty match
    may still be reported at its first position. *)
Definition scan_measure (ma : bool) (s : text) : nat :=
  2 * length s + (if ma then 0 else 1).

Lemma scan_decreases p ma prev s f :
  sre_search p ma prev s = Some f ->
  scan_measure (is_nil (m_text (f_match f))) (mr_rest (f_match f)) < scan_measure ma s.
Proof.
  intros H. apply sre_search_consumes in H. destruct H as [Hs Hma].
  unfold scan_measure. rewrite Hs, !length_app.
  destruct (m_text (f_match f)) as [|x t] eqn:Et; simpl.
  - destruct (f_skipped f) as [|y sk] eqn:Es; simpl.
    + destruct ma; [now exfalso; apply Hma | lia].
    + destruct ma; lia.
  - destruct ma; lia.
Qed.

Definition inspect {A} (a : A) : {b | a = b} := exist _ a eq_refl.

(** [re.finditer]: the successive matches, left to right, each search
    starting where the previous match ended. *)
Equations? finditer (p : pattern) (ma : bool) (prev : option char) (s : text)
  : list found by wf (scan_measure ma s) lt :=
finditer p ma prev s with inspect (sre_search p ma prev s) := {
  | exist _ None _ => [];
  | exist _ (Some f) _ =>
    f :: finditer p (is_nil (m_text (f_match f))) (mr_prev (f_match f)) (mr_rest (f_match f)) }.
Proof. eapply scan_decreases; eauto. Qed.

(** [pattern.split] for a pattern with one group: the text before each
    match, then the group, and at the end the text after the last match. *)
Equations? split_loop (p : pattern) (ma : bool) (prev : option char) (s : text)
  : list text by wf (scan_measure ma s) lt :=
split_loop p ma prev s with inspect (sre_search p ma prev s) := {
  | exist _ None _ => [s];
  | exist _ (Some f) _ =>
    f_skipped f :: group1 (f_match f)
      :: split_loop p (is_nil (m_text (f_match f))) (mr_prev (f_match f)) (mr_rest (f_match f)) }.
Proof. eapply scan_decreases; eauto. Qed.

Definition re_finditer (p : pattern) (s : text) : list found := finditer p false None s.
Definition re_split (p : pattern) (s : text) : list text := split_loop p false None s.

(** *** [re.compile], for the syntax the two patterns use

    An anchor, parentheses, a dot, the whitespace escape, a bracketed
    list of plain characters, plain characters, and the star after a
    one-character item.  Anything else is refused. *)

Definition flush (atom : option charset) (out : list op) : list op :=
  match atom with
  | Some a => IN a :: out
  | None => out
  end.

Fixpoint re_parse (s : text) (cls : option text) (atom : option charset) (out : list op)
  : option pattern :=
  match s with
  | [] =>
    match cls with
    | Some _ => None
    | None => Some (rev (flush atom out))
    end
  | c :: s' =>
    match cls with
    | Some acc =>
      if mem c (utf8 "]") then re_parse s' None (Some (CS_LITERALS (rev acc))) out
      else if mem c (utf8 "[\^-") then None
      else re_parse s' (Some (c :: acc)) atom out
    | None =>
      if mem c (utf8 "*") then
        match atom with
        | Some a => re_parse s' None None (MAX_REPEAT a :: out)
        | None => None
        end
      else if mem c (utf8 "^") then re_parse s' None None (AT_BEGINNING_LINE :: flush atom out)
      else if mem c (utf8 "()") then re_parse s' None None (MARK :: flush atom out)
      else if mem c (utf8 ".") then re_parse s' None (Some CS_ANY) (flush atom out)
      else if mem c (utf8 "[") then re_parse s' (Some []) None (flush atom out)
      else if mem c (utf8 "\") then
        match s' with
        | e :: s'' =>
          if mem e (utf8 "s") then re_parse s'' None (Some CS_SPACE) (flush atom out)
          else None
        | [] => None
        end
      else if mem c (utf8 "+?{}|$]") then None
      else re_parse s' None (Some (CS_LITERALS [c])) (flush atom out)
    end
  end.

Definition re_compile (src : string) : option pattern := re_parse (utf8 src) None None [].

(** ** The two chapter patterns (convert.py, lines 133 and 137) *)

Definition regex_zh_source : string :=
  "^\s*([第卷][0123456789一二三四五六七八九十零〇百千两]*[章回部节集卷].*)\s*".

Definition regex_en_source : string := "^\s*([Chapter].*)\s*".

Definition zh_markers : text := utf8 "第卷".
Definition zh_numerals : text := utf8 "0123456789一二三四五六七八九十零〇百千两".
Definition zh_units : text := utf8 "章回部节集卷".

Definition regex_zh : pattern :=
  [ AT_BEGINNING_LINE; MAX_REPEAT CS_SPACE; MARK;
    IN (CS_LITERALS zh_markers);
    MAX_REPEAT (CS_LITERALS zh_numerals);
    IN (CS_LITERALS zh_units);
    MAX_REPEAT CS_ANY; MARK; MAX_REPEAT CS_SPACE ].

Definition en_class : text := utf8 "Chapter".

Definition regex_en : pattern :=
  [ AT_BEGINNING_LINE; MAX_REPEAT CS_SPACE; MARK;
    IN (CS_LITERALS en_class);
    MAX_REPEAT CS_ANY; MARK; MAX_REPEAT CS_SPACE ].

(** The two definitions are what [re.compile] makes of the sources. *)
Lemma regex_sources_compile :
  re_compile regex_zh_source = Some regex_zh
  /\ re_compile regex_en_source = Some regex_en.
Proof. split; vm_compute; reflexivity. Qed.

(** ** The objects of [ebooklib] that the conversion builds *)

Record EpubHtml := MkEpubHtml
  { h_title : text; h_file_name : text; h_lang : text; h_content : text }.

Record Link := MkLink { l_href : text; l_title : text; l_uid : text }.

Inductive EpubItem :=
| ItemHtml (chapter : EpubHtml)
| ItemNcx                     (* epub.EpubNcx() *)
| ItemNav (uid : text).       (* epub.EpubNav(uid=...) *)

(** An entry of [book.spine]: the identifier of an item, or a chapter. *)
Inductive SpineEntry :=
| SpineId (uid : text)
| SpineChapter (chapter : EpubHtml).

(** [identifier] is [None] while the book keeps the identifier that the
    constructor generated. *)
Record EpubBook := MkEpubBook
  { b_title : text;
    b_language : text;
    b_identifier : option text;
    b_authors : list text;
    b_items : list EpubItem;
    b_toc : list Link;
    b_spine : list SpineEntry }.

(** [epub.EpubBook()] *)
Definition EpubBook_new : EpubBook := MkEpubBook [] (utf8 "en") None [] [] [] [].

Definition set_title (title : text) (b : EpubBook) : EpubBook :=
  MkEpubBook title (b_language b) (b_identifier b) (b_authors b) (b_items b) (b_toc b) (b_spine b).
Definition set_language (lang : text) (b : EpubBook) : EpubBook :=
  MkEpubBook (b_title b) lang (b_identifier b) (b_authors b) (b_items b) (b_toc b) (b_spine b).
Definition set_identifier (id : text) (b : EpubBook) : EpubBook :=
  MkEpubBook (b_title b) (b_language b) (Some id) (b_authors b) (b_items b) (b_toc b) (b_spine b).
Definition add_author (author : text) (b : EpubBook) : EpubBook :=
  MkEpubBook (b_title b) (b_language b) (b_identifier b) (b_authors b ++ [author]) (b_items b) (b_toc b) (b_spine b).
Definition add_item (item : EpubItem) (b : EpubBook) : EpubBook :=
  MkEpubBook (b_title b) (b_language b) (b_identifier b) (b_authors b) (b_items b ++ [item]) (b_toc b) (b_spine b).
Definition toc_append (l : Link) (b : EpubBook) : EpubBook :=
  MkEpubBook (b_title b) (b_language b) (b_identifier b) (b_authors b) (b_items b) (b_toc b ++ [l]) (b_spine b).
Definition set_spine (sp : list SpineEntry) (b : EpubBook) : EpubBook :=
  MkEpubBook (b_title b) (b_language b) (b_identifier b) (b_authors b) (b_items b) (b_toc b) sp.
Definition spine_append (e : SpineEntry) (b : EpubBook) : EpubBook :=
  MkEpubBook (b_title b) (b_language b) (b_identifier b) (b_authors b) (b_items b) (b_toc b) (b_spine b ++ [e]).

(** ** Exceptions and effects *)

(** An instance of Python's [Exception]: its class name and [str(e)]. *)
Record exn := Exn { exn_class : text; exn_str : text }.

Inductive result (A : Type) :=
| Return (a : A)
| Raise (e : exn).
Arguments Return {A} a.
Arguments Raise {A} e.

(** What the conversion does to the world, in order. *)
Inductive event :=
| EvRead (path : text)                          (* open(path, 'r') and file.read() *)
| EvDetect (content : text)                     (* detect(content) *)
| EvPrint (line : text)                         (* print(line) *)
| EvWriteEpub (path : text) (book : EpubBook).  (* epub.write_epub(path, book, {}) *)

(** A computation: the events it performed and how it ended. *)
Definition M (A : Type) : Type := list event * result A.

Definition ret {A} (a : A) : M A := ([], Return a).

Definition bind {A B} (m : M A) (f : A -> M B) : M B :=
  match m with
  | (t, Return a) => let (t', r) := f a in (t ++ t', r)
  | (t, Raise e) => (t, Raise e)
  end.

(** [try: m except Exception as e: h e] *)
Definition try_except {A} (m : M A) (h : exn -> M A) : M A :=
  match m with
  | (t, Raise e) => let (t', r) := h e in (t ++ t', r)
  | ok => ok
  end.

Definition bindR {A B} (m : result A) (f : A -> result B) : result B :=
  match m with
  | Return a => f a
  | Raise e => Raise e
  end.

Definition lift {A} (r : result A) : M A := ([], r).

Definition print (line : text) : M unit := ([EvPrint line], Return tt).

Declare Scope py_scope.
Delimit Scope py_scope with py.
Notation "x <- m ;; k" := (bind m (fun x => k))
  (at level 61, m at next level, right associativity) : py_scope.
Notation "m ;; k" := (bind m (fun _ => k))
  (at level 61, right associativity) : py_scope.
Notation "x <~ m ;; k" := (bindR m (fun x => k))
  (at level 61, m at next level, right associativity) : py_scope.
Open Scope py_scope.

(** ** Python values used by the conversion *)

(** [not x] for an optional [str] argument: [None] and the empty string
    are false. *)
Definition truthy (x : option text) : bool :=
  match x with
  | Some (_ :: _) => true
  | _ => false
  end.

Definition str_value (x : option text) : text :=
  match x with
  | Some t => t
  | None => []
  end.

(** [range(start, stop, step)] for a positive step. *)
Definition py_range (start stop step : Z) : list Z :=
  map (fun k => (start + Z.of_nat k * step)%Z)
      (seq 0 (Z.to_nat ((stop - start + step - 1) / step))).

Definition len {A} (l : list A) : Z := Z.of_nat (length l).

(** [l[i]]: negative indices count from the end, an index out of range
    raises [IndexError]. *)
Definition getitem {A} (l : list A) (i : Z) : result A :=
  let j := if (i <? 0)%Z then (len l + i)%Z else i in
  if (j <? 0)%Z then Raise (Exn (utf8 "IndexError") (utf8 "list index out of range"))
  else match nth_error l (Z.to_nat j) with
       | Some x => Return x
       | None => Raise (Exn (utf8 "IndexError") (utf8 "list index out of range"))
       end.

(** [str(i)] *)
Definition str_of_int (i : Z) : text := utf8 (NilZero.string_of_int (Z.to_int i)).

(** [s.replace(old, new)] for a one-character [old]. *)
Definition replace_char (old : char) (new : text) (s : text) : text :=
  flat_map (fun c => if (c =? old)%N then new else [c]) s.

(** A [for] loop whose body may raise. *)
Fixpoint for_each {A S} (l : list A) (body : S -> A -> result S) (st : S) : result S :=
  match l with
  | [] => Return st
  | x :: l' => st' <~ body st x ;; for_each l' body st'
  end.

Definition quote : text := [34%N].

(** ** [txt_to_epub] (convert.py, lines 82-163) *)

(** Line 151: [epub.EpubHtml(title=..., file_name=f'chap_{i}.xhtml', lang=lang)]. *)
Definition new_chapter (chapter_title : text) (i : Z) (lang : text) : EpubHtml :=
  MkEpubHtml chapter_title (utf8 "chap_" ++ str_of_int i ++ utf8 ".xhtml") lang [].

Definition set_content (content : text) (c : EpubHtml) : EpubHtml :=
  MkEpubHtml (h_title c) (h_file_name c) (h_lang c) content.

(** Line 152: the body wrapped in a paragraph, line feeds as breaks. *)
Definition chapter_content (body : text) : text :=
  utf8 "<html><body><p>" ++ replace_char LF (utf8 "<br/>") body
  ++ utf8 "</p></body></html>".

(** Line 154: [epub.Link(f'chap_{i}.xhtml', chapter_title, f'chap{i}')]. *)
Definition chapter_link (chapter_title : text) (i : Z) : Link :=
  MkLink (utf8 "chap_" ++ str_of_int i ++ utf8 ".xhtml") chapter_title
         (utf8 "chap" ++ str_of_int i).

Section Conversion.

(** The collaborators: the file system, [langdetect], [os.path] and the
    EPUB writer of [ebooklib]. *)
Variable read_file : text -> result text.
Variable detect : text -> result text.
Variable os_path_splitext : text -> text * text.
Variable os_path_split : text -> text * text.
Variable write_epub : text -> EpubBook -> result unit.

(** Lines 105-106. *)
Definition open_read (path : text) : M text := ([EvRead path], read_file path).

Definition call_detect (content : text) : M text := ([EvDetect content], detect content).

Definition call_write_epub (path : text) (book : EpubBook) : M unit :=
  ([EvWriteEpub path book], write_epub path book).

(** Lines 113-118: the language of the book. *)
Definition resolve_lang (book_content : text) (lang : option text) : M text :=
  if negb (truthy lang) then
    try_except (call_detect book_content)
      (fun e =>
         let lang := utf8 "zh-cn" in
         print (utf8 "Error in language detection: " ++ exn_str e
                ++ utf8 ", use " ++ lang ++ utf8 " instead.") ;;
         ret lang)
  else ret (str_value lang).

(** Lines 131-138: the pattern and the identifier of the navigation
    entry, by language; [None] is the [else] branch. *)
Definition language_settings (lang : text) : option (pattern * text) :=
  if text_eqb lang (utf8 "zh-cn") then Some (regex_zh, utf8 "目录")
  else if text_eqb lang (utf8 "en") then Some (regex_en, utf8 "Table of Content")
  else None.

(** Lines 149-155: the body of the chapter loop. *)
Definition add_chapter (splits : list text) (lang : text) (book : EpubBook) (i : Z)
  : result EpubBook :=
  chapter_title <~ getitem splits i ;;
  let chapter := new_chapter chapter_title i lang in
  body <~ getitem splits (i + 1) ;;
  let chapter := set_content (chapter_content body) chapter in
  let book := add_item (ItemHtml chapter) book in
  let book := toc_append (chapter_link chapter_title i) book in
  let book := spine_append (SpineChapter chapter) book in
  Return book.

(** Lines 143-155: split the text and add the chapters. *)
Definition add_chapters (regex : pattern) (spine_uid lang book_content : text)
  (book : EpubBook) : result EpubBook :=
  let splits := re_split regex book_content in
  let book := set_spine [SpineId spine_uid] book in
  for_each (py_range 1 (len splits - 1) 2) (add_chapter splits lang) book.

(** Lines 120-128: the metadata. *)
Definition set_metadata (title lang : text) (id author : option text) (book : EpubBook)
  : EpubBook :=
  let book := set_title title book in
  let book := set_language lang book in
  let book := if truthy id then set_identifier (str_value id) book else book in
  let book := if truthy author then add_author (str_value author) book else book in
  book.

Definition txt_to_epub (txt_file_path : text)
  (epub_file_path author title id lang : option text) : M unit :=
  if is_nil txt_file_path then ret tt
  else
    let book := EpubBook_new in
    book_content <- open_read txt_file_path ;;
    let epub_file_path :=
      if negb (truthy epub_file_path)
      then fst (os_path_splitext txt_file_path) ++ utf8 ".epub"
      else str_value epub_file_path in
    let title :=
      if negb (truthy title)
      then fst (os_path_splitext (snd (os_path_split txt_file_path)))
      else str_value title in
    lang <- resolve_lang book_content lang ;;
    let book := set_metadata title lang id author book in
    match language_settings lang with
    | None =>
      print (utf8 "Language " ++ quote ++ lang ++ quote ++ utf8 " not supported") ;;
      ret tt
    | Some (regex, spine_uid) =>
      book <- lift (add_chapters regex spine_uid lang book_content book) ;;
      let book := add_item ItemNcx book in
      let book := add_item (ItemNav spine_uid) book in
      call_write_epub epub_file_path book ;;
      print (utf8 "Save .epub file to: " ++ epub_file_path)
    end.

End Conversion.

(** A file system, detector and writer to run the conversion on: one
    file holds the given content, detection fails as [langdetect] does on
    a text without letters, and every write succeeds. *)
Definition demo_read (path content : text) : text -> result text :=
  fun p => if text_eqb p path then Return content
           else Raise (Exn (utf8 "FileNotFoundError") p).
Definition demo_detect_fails : text -> result text :=
  fun _ => Raise (Exn (utf8 "LangDetectException") (utf8 "No features in text.")).
Definition demo_detect (l : text) : text -> result text := fun _ => Return l.
Definition demo_splitext : text -> text * text :=
  fun p => (firstn (length p - 4) p, skipn (length p - 4) p).
Definition demo_split : text -> text * text := fun p => ([], p).
Definition demo_write : text -> EpubBook -> result unit := fun _ _ => Return tt.

(** * Properties *)

(** ** The scan of [re.finditer] and [re.split] *)

Lemma finditer_eq p ma prev s :
  finditer p ma prev s =
  match sre_search p ma prev s with
  | None => []
  | Some f =>
    f :: finditer p (is_nil (m_text (f_match f))) (mr_prev (f_match f)) (mr_rest (f_match f))
  end.
Proof.
  simp finditer.
  generalize (inspect (sre_search p ma prev s)).
  intros [[f|] e]; simpl; now rewrite e.
Qed.

Lemma split_loop_eq p ma prev s :
  split_loop p ma prev s =
  match sre_search p ma prev s with
  | None => [s]
  | Some f =>
    f_skipped f :: group1 (f_match f)
      :: split_loop p (is_nil (m_text (f_match f))) (mr_prev (f_match f)) (mr_rest (f_match f))
  end.
Proof.
  simp split_loop.
  generalize (inspect (sre_search p ma prev s)).
  intros [[f|] e]; simpl; now rewrite e.
Qed.

(** Induction along the scan: a property holds at a position when it
    holds at the position after the next match. *)
Lemma scan_ind (p : pattern) (P : bool -> option char -> text -> Prop) :
  (forall ma prev s,
      (forall f, sre_search p ma prev s = Some f ->
                 P (is_nil (m_text (f_match f))) (mr_prev (f_match f)) (mr_rest (f_match f))) ->
      P ma prev s) ->
  forall ma prev s, P ma prev s.
Proof.
  intros step ma prev s.
  remember (scan_measure ma s) as n eqn:En.
  revert ma prev s En.
  induction n as [n IH] using lt_wf_ind.
  intros ma prev s ->. apply step. intros f Hf.
  eapply IH; [eapply scan_decreases; eassumption | reflexivity].
Qed.

(** The list [re.split] returns, from the matches [re.finditer] finds. *)
Fixpoint splits_of (fs : list found) (s : text) : list text :=
  match fs with
  | [] => [s]
  | f :: fs' => f_skipped f :: group1 (f_match f) :: splits_of fs' (mr_rest (f_match f))
  end.

(** The text the matches cover, with what lies between and after them. *)
Fixpoint cover (fs : list found) (s : text) : text :=
  match fs with
  | [] => s
  | f :: fs' => f_skipped f ++ m_text (f_match f) ++ cover fs' (mr_rest (f_match f))
  end.

Lemma split_loop_finditer p ma prev s :
  split_loop p ma prev s = splits_of (finditer p ma prev s) s.
Proof.
  revert ma prev s. apply (scan_ind p). intros ma prev s IH.
  rewrite split_loop_eq, finditer_eq.
  destruct (sre_search p ma prev s) as [f|]; [|reflexivity].
  simpl. now rewrite IH.
Qed.

Lemma finditer_cover p ma prev s : cover (finditer p ma prev s) s = s.
Proof.
  revert ma prev s. apply (scan_ind p). intros ma prev s IH.
  rewrite finditer_eq.
  destruct (sre_search p ma prev s) as [f|] eqn:E; [|reflexivity].
  simpl. rewrite IH by reflexivity.
  apply sre_search_consumes in E. symmetry. apply E.
Qed.

Lemma sre_search_match p ma prev s f :
  sre_search p ma prev s = Some f ->
  exists ma' prev' s', sre_match p ma' (MState prev' [] []) s' = Some (f_match f).
Proof.
  revert ma prev f. induction s as [|c s IH]; intros ma prev f; simpl.
  - destruct (sre_match p ma (MState prev [] []) []) as [r|] eqn:E; [|discriminate].
    intros [= <-]. simpl. eauto.
  - destruct (sre_match p ma (MState prev [] []) (c :: s)) as [r|] eqn:E.
    + intros [= <-]. simpl. eauto.
    + destruct (sre_search p false (Some c) s) as [[sk r]|] eqn:E'; [|discriminate].
      intros [= <-]. apply IH in E'. exact E'.
Qed.

Lemma finditer_Forall p (Q : mresult -> Prop) :
  (forall ma prev s r, sre_match p ma (MState prev [] []) s = Some r -> Q r) ->
  forall ma prev s, Forall (fun f => Q (f_match f)) (finditer p ma prev s).
Proof.
  intros HQ. apply (scan_ind p). intros ma prev s IH.
  rewrite finditer_eq.
  destruct (sre_search p ma prev s) as [f|] eqn:E; [|constructor].
  constructor; [|now apply IH].
  apply sre_search_match in E. destruct E as (ma' & prev' & s' & E). eapply HQ, E.
Qed.

Lemma splits_of_length fs s : length (splits_of fs s) = 2 * length fs + 1.
Proof.
  revert s. induction fs as [|f fs IH]; intros s; simpl; [reflexivity|].
  rewrite IH. lia.
Qed.

(** ** What a match of the chapter patterns looks like *)

Definition ms_steps (l : text) (st : mstate) : mstate :=
  fold_left (fun st c => ms_step c st) l st.

Lemma ms_steps_cur l st : ms_cur (ms_steps l st) = rev l ++ ms_cur st.
Proof.
  revert st. induction l as [|c l IH]; intros st; simpl; [reflexivity|].
  unfold ms_steps in *. simpl. rewrite IH. simpl. now rewrite <- app_assoc.
Qed.

Lemma ms_steps_done l st : ms_done (ms_steps l st) = ms_done st.
Proof.
  revert st. induction l as [|c l IH]; intros st; simpl; [reflexivity|].
  unfold ms_steps in *. simpl. now rewrite IH.
Qed.

Lemma max_repeat_inv cs k st s r :
  max_repeat cs k st s = Some r ->
  exists pre post,
    s = pre ++ post /\ forallb (in_charset cs) pre = true
    /\ k (ms_steps pre st) post = Some r.
Proof.
  revert st. induction s as [|c s IH]; intros st; simpl.
  - intros H. exists [], []. auto.
  - destruct (in_charset cs c) eqn:Ec.
    + destruct (max_repeat cs k (ms_step c st) s) as [r'|] eqn:E.
      * intros [= <-]. apply IH in E. destruct E as (pre & post & -> & Hpre & Hk).
        exists (c :: pre), post. simpl. rewrite Ec. auto.
      * intros H. exists [], (c :: s). auto.
    + intros H. exists [], (c :: s). auto.
Qed.

Lemma sre_match_end ma st s r :
  sre_match [] ma st s = Some r -> mr_pieces r = ms_pieces st.
Proof.
  simpl. destruct (ma && all_nil (ms_pieces st)); [discriminate|].
  now intros [= <-].
Qed.

Ltac pieces_simpl :=
  cbn [mr_pieces]; unfold ms_pieces, ms_mark, ms_step; cbn [ms_cur ms_done];
  repeat (progress (rewrite ?ms_steps_cur, ?ms_steps_done; cbn [ms_cur ms_done]));
  repeat (progress (rewrite ?rev_app_distr, ?rev_involutive, ?app_nil_r; cbn [rev app])).

Definition not_lf (c : char) : bool := negb (c =? LF)%N.

(** A match of the English pattern: whitespace, one character of the
    bracketed class, the rest of the line, whitespace. *)
Definition en_match_shape (r : mresult) : Prop :=
  exists lead c line trail,
    mr_pieces r = [lead; c :: line; trail]
    /\ forallb is_space lead = true
    /\ mem c en_class = true
    /\ forallb not_lf line = true
    /\ forallb is_space trail = true.

Lemma forallb_in_literals l s :
  forallb (in_charset (CS_LITERALS l)) s = forallb (fun c => mem c l) s.
Proof. reflexivity. Qed.

Ltac repeat_inv H pre post Hpre :=
  apply max_repeat_inv in H; destruct H as (pre & post & -> & Hpre & H);
  cbv beta in H.

Ltac match_end H :=
  cbv beta in H; destruct (_ && _) in H; [discriminate|]; injection H as <-.

Lemma regex_en_inv ma prev s r :
  sre_match regex_en ma (MState prev [] []) s = Some r -> en_match_shape r.
Proof.
  unfold regex_en. cbn [sre_match].
  destruct (at_beginning_line _); [|discriminate].
  intros H. repeat_inv H lead s1 Hlead.
  destruct s1 as [|c s2]; [discriminate|].
  cbn [in_charset] in H.
  destruct (mem c en_class) eqn:Ec; [|discriminate].
  repeat_inv H line s3 Hline.
  repeat_inv H trail s4 Htrail.
  match_end H.
  exists lead, c, line, trail.
  split; [pieces_simpl; reflexivity|].
  split; [exact Hlead|]. split; [exact Ec|]. split; [exact Hline | exact Htrail].
Qed.

(** A match of the Chinese pattern: whitespace, a marker, any number of
    numeral characters (possibly none), a unit, the rest of the line,
    whitespace. *)
Definition zh_match_shape (r : mresult) : Prop :=
  exists lead m nums u line trail,
    mr_pieces r = [lead; m :: nums ++ u :: line; trail]
    /\ forallb is_space lead = true
    /\ mem m zh_markers = true
    /\ forallb (fun c => mem c zh_numerals) nums = true
    /\ mem u zh_units = true
    /\ forallb not_lf line = true
    /\ forallb is_space trail = true.

Lemma regex_zh_inv ma prev s r :
  sre_match regex_zh ma (MState prev [] []) s = Some r -> zh_match_shape r.
Proof.
  unfold regex_zh. cbn [sre_match].
  destruct (at_beginning_line _); [|discriminate].
  intros H. repeat_inv H lead s1 Hlead.
  destruct s1 as [|m s2]; [discriminate|].
  cbn [in_charset] in H.
  destruct (mem m zh_markers) eqn:Em; [|discriminate].
  repeat_inv H nums s3 Hnums.
  destruct s3 as [|u s4]; [discriminate|].
  cbn [in_charset] in H.
  destruct (mem u zh_units) eqn:Eu; [|discriminate].
  repeat_inv H line s5 Hline.
  repeat_inv H trail s6 Htrail.
  match_end H.
  exists lead, m, nums, u, line, trail.
  split; [pieces_simpl; rewrite <- app_assoc; reflexivity|].
  rewrite forallb_in_literals in Hnums.
  split; [exact Hlead|]. split; [exact Em|]. split; [exact Hnums|].
  split; [exact Eu|]. split; [exact Hline | exact Htrail].
Qed.

(** ** The chapter loop *)

(** The chapters the loop builds from [h1; b1; h2; b2; ...], the first
    at index [i]: each with its navigation link. *)
Fixpoint chapters_from (lang : text) (i : Z) (rest : list text) : list (EpubHtml * Link) :=
  match rest with
  | h :: b :: rest' =>
    (set_content (chapter_content b) (new_chapter h i lang), chapter_link h i)
      :: chapters_from lang (i + 2) rest'
  | _ => []
  end.

(** A book after chapters were added to its items, table of contents
    and spine. *)
Definition with_chapters (chs : list (EpubHtml * Link)) (b : EpubBook) : EpubBook :=
  MkEpubBook (b_title b) (b_language b) (b_identifier b) (b_authors b)
    (b_items b ++ map (fun c => ItemHtml (fst c)) chs)
    (b_toc b ++ map snd chs)
    (b_spine b ++ map (fun c => SpineChapter (fst c)) chs).

Lemma with_chapters_nil b : with_chapters [] b = b.
Proof. destruct b. unfold with_chapters. simpl. now rewrite !app_nil_r. Qed.

Lemma with_chapters_cons c chs b :
  with_chapters chs (with_chapters [c] b) = with_chapters (c :: chs) b.
Proof. unfold with_chapters. simpl. now rewrite <- !app_assoc. Qed.

Lemma len_nonneg {A} (l : list A) : (0 <= len l)%Z.
Proof. unfold len. lia. Qed.

Lemma getitem_app {A} (front : list A) x rest :
  getitem (front ++ x :: rest) (len front) = Return x.
Proof.
  unfold getitem. pose proof (len_nonneg front) as Hn.
  destruct (len front <? 0)%Z eqn:E; [apply Z.ltb_lt in E; lia|].
  rewrite E. unfold len. rewrite Nat2Z.id.
  rewrite nth_error_app2 by lia. now rewrite Nat.sub_diag.
Qed.

Lemma getitem_app_next {A} (front : list A) x y rest :
  getitem (front ++ x :: y :: rest) (len front + 1) = Return y.
Proof.
  replace (front ++ x :: y :: rest) with ((front ++ [x]) ++ y :: rest)
    by now rewrite <- app_assoc.
  replace (len front + 1)%Z with (len (front ++ [x])).
  - apply getitem_app.
  - unfold len. rewrite length_app. simpl. lia.
Qed.

Lemma add_chapter_at front h b rest lang book :
  add_chapter (front ++ h :: b :: rest) lang book (len front)
  = Return (with_chapters
              [(set_content (chapter_content b) (new_chapter h (len front) lang),
                chapter_link h (len front))] book).
Proof.
  unfold add_chapter. rewrite getitem_app, getitem_app_next. reflexivity.
Qed.

Lemma chapter_loop lang k : forall rest front book,
  length rest = 2 * k ->
  for_each (map (fun j => (len front + Z.of_nat j * 2)%Z) (seq 0 k))
           (add_chapter (front ++ rest) lang) book
  = Return (with_chapters (chapters_from lang (len front) rest) book).
Proof.
  induction k as [|k IH]; intros rest front book Hlen.
  - destruct rest; [|discriminate]. simpl. now rewrite with_chapters_nil.
  - destruct rest as [|h [|b rest]]; try (simpl in Hlen; lia).
    cbn [seq map for_each]. rewrite Z.mul_0_l, Z.add_0_r.
    rewrite add_chapter_at. cbn [bindR chapters_from].
    replace (front ++ h :: b :: rest) with ((front ++ [h; b]) ++ rest)
      by now rewrite <- app_assoc.
    assert (Hl : len (front ++ [h; b]) = (len front + 2)%Z)
      by (unfold len; rewrite length_app; simpl; lia).
    rewrite <- seq_shift, map_map.
    rewrite (map_ext _ (fun j => (len (front ++ [h; b]) + Z.of_nat j * 2)%Z))
      by (intros j; rewrite Hl; lia).
    rewrite IH by (simpl in Hlen; lia).
    now rewrite with_chapters_cons, Hl.
Qed.

Lemma splits_of_cons fs s :
  splits_of fs s = hd [] (splits_of fs s) :: tl (splits_of fs s).
Proof. destruct fs; reflexivity. Qed.

Lemma py_range_odd k :
  py_range 1 (Z.of_nat (2 * k + 1) - 1) 2
  = map (fun j => (1 + Z.of_nat j * 2)%Z) (seq 0 k).
Proof.
  unfold py_range.
  replace ((Z.of_nat (2 * k + 1) - 1 - 1 + 2 - 1) / 2)%Z with (Z.of_nat k).
  - now rewrite Nat2Z.id.
  - replace (Z.of_nat (2 * k + 1) - 1 - 1 + 2 - 1)%Z with (Z.of_nat k * 2)%Z by lia.
    now rewrite Z.div_mul.
Qed.

Lemma add_chapters_ok regex spine_uid lang book_content book :
  add_chapters regex spine_uid lang book_content book
  = Return (with_chapters (chapters_from lang 1 (tl (re_split regex book_content)))
                          (set_spine [SpineId spine_uid] book)).
Proof.
  unfold add_chapters, re_split. rewrite split_loop_finditer.
  set (fs := finditer regex false None book_content).
  unfold len. rewrite splits_of_length, py_range_odd.
  rewrite (splits_of_cons fs book_content) at 1.
  change (?x :: ?l) with ([x] ++ l) at 1.
  change 1%Z with (len [hd [] (splits_of fs book_content)]) at 1 2.
  apply chapter_loop.
  pose proof (splits_of_length fs book_content) as Hl.
  rewrite (splits_of_cons fs book_content) in Hl. simpl in Hl. lia.
Qed.

(** The chapters come one per match, entitled by the groups in order. *)
Lemma chapters_from_matches lang fs : forall i s,
  map (fun c => h_title (fst c)) (chapters_from lang i (tl (splits_of fs s)))
  = map (fun f => group1 (f_match f)) fs.
Proof.
  induction fs as [|f fs IH]; intros i s; [reflexivity|].
  cbn [splits_of tl]. rewrite (splits_of_cons fs). cbn [chapters_from map].
  rewrite IH. reflexivity.
Qed.

Lemma chapters_from_links lang fs : forall i s,
  map (fun c => l_title (snd c)) (chapters_from lang i (tl (splits_of fs s)))
  = map (fun f => group1 (f_match f)) fs.
Proof.
  induction fs as [|f fs IH]; intros i s; [reflexivity|].
  cbn [splits_of tl]. rewrite (splits_of_cons fs). cbn [chapters_from map].
  rewrite IH. reflexivity.
Qed.

(** ** The whole conversion *)

Arguments utf8 : simpl never.
Arguments re_split : simpl never.
Opaque utf8.

(** The files the conversion asked the writer to write, in order. *)
Definition writes (t : list event) : list (text * EpubBook) :=
  flat_map (fun e => match e with EvWriteEpub p b => [(p, b)] | _ => [] end) t.

Lemma writes_app t1 t2 : writes (t1 ++ t2) = writes t1 ++ writes t2.
Proof. unfold writes. apply flat_map_app. Qed.

(** Lines 109-110 and 111-112: the defaults of the output path and of
    the title. *)
Definition output_path (splitext : text -> text * text)
  (txt_file_path : text) (epub_file_path : option text) : text :=
  if negb (truthy epub_file_path)
  then fst (splitext txt_file_path) ++ utf8 ".epub"
  else str_value epub_file_path.

Definition book_title (splitext split : text -> text * text)
  (txt_file_path : text) (title : option text) : text :=
  if negb (truthy title)
  then fst (splitext (snd (split txt_file_path)))
  else str_value title.

(** The book handed to the writer for a text in a supported language. *)
Definition packaged_book (regex : pattern) (spine_uid lang title : text)
  (id author : option text) (book_content : text) : EpubBook :=
  add_item (ItemNav spine_uid)
    (add_item ItemNcx
       (with_chapters (chapters_from lang 1 (tl (re_split regex book_content)))
          (set_spine [SpineId spine_uid]
             (set_metadata title lang id author EpubBook_new)))).

Definition save_message (path : text) : text := utf8 "Save .epub file to: " ++ path.

Definition unsupported_message (lang : text) : text :=
  utf8 "Language " ++ quote ++ lang ++ quote ++ utf8 " not supported".

Definition detection_warning (e : exn) : text :=
  utf8 "Error in language detection: " ++ exn_str e
  ++ utf8 ", use " ++ utf8 "zh-cn" ++ utf8 " instead.".

Lemma text_eqb_eq a b : text_eqb a b = true <-> a = b.
Proof.
  revert b. induction a as [|x a IH]; intros [|y b]; simpl; split; try easy.
  - intros H. apply andb_true_iff in H. destruct H as [Hx Hab].
    apply N.eqb_eq in Hx. apply IH in Hab. now subst.
  - intros [= -> ->]. rewrite N.eqb_refl. now apply IH.
Qed.

Lemma language_settings_cases lang regex uid :
  language_settings lang = Some (regex, uid) ->
  (lang = utf8 "zh-cn" /\ regex = regex_zh /\ uid = utf8 "目录")
  \/ (lang = utf8 "en" /\ regex = regex_en /\ uid = utf8 "Table of Content").
Proof.
  unfold language_settings.
  destruct (text_eqb lang (utf8 "zh-cn")) eqn:Ezh.
  - intros [= <- <-]. left. now apply text_eqb_eq in Ezh.
  - destruct (text_eqb lang (utf8 "en")) eqn:Een; [|discriminate].
    intros [= <- <-]. right. now apply text_eqb_eq in Een.
Qed.

Lemma language_settings_none lang :
  lang <> utf8 "en" -> lang <> utf8 "zh-cn" -> language_settings lang = None.
Proof.
  intros Hen Hzh. unfold language_settings.
  destruct (text_eqb lang (utf8 "zh-cn")) eqn:Ezh;
    [now apply text_eqb_eq in Ezh|].
  destruct (text_eqb lang (utf8 "en")) eqn:Een;
    [now apply text_eqb_eq in Een | reflexivity].
Qed.

Lemma set_metadata_fresh title lang id author :
  set_metadata title lang id author EpubBook_new
  = MkEpubBook title lang
      (if truthy id then Some (str_value id) else None)
      (if truthy author then [str_value author] else [])
      [] [] [].
Proof.
  unfold set_metadata. destruct (truthy id), (truthy author); reflexivity.
Qed.

Lemma packaged_book_parts regex uid lang title id author content :
  let chs := chapters_from lang 1 (tl (re_split regex content)) in
  packaged_book regex uid lang title id author content
  = MkEpubBook title lang
      (if truthy id then Some (str_value id) else None)
      (if truthy author then [str_value author] else [])
      (map ItemHtml (map fst chs) ++ [ItemNcx; ItemNav uid])
      (map snd chs)
      (SpineId uid :: map SpineChapter (map fst chs)).
Proof.
  intros chs. unfold packaged_book. fold chs. rewrite set_metadata_fresh.
  unfold with_chapters, add_item, set_spine. cbn.
  rewrite !map_map, <- app_assoc. reflexivity.
Qed.

Lemma chapters_count lang regex content :
  length (chapters_from lang 1 (tl (re_split regex content)))
  = length (re_finditer regex content).
Proof.
  unfold re_split, re_finditer. rewrite split_loop_finditer.
  rewrite <- (length_map (fun c => h_title (fst c))), chapters_from_matches.
  apply length_map.
Qed.

Section ConversionFacts.

Variable read_file : text -> result text.
Variable detect : text -> result text.
Variable os_path_splitext : text -> text * text.
Variable os_path_split : text -> text * text.
Variable write_epub : text -> EpubBook -> result unit.

Let convert := txt_to_epub read_file detect os_path_splitext os_path_split write_epub.

Lemma resolve_lang_cases book_content lang :
  (truthy lang = true
   /\ resolve_lang detect book_content lang = ([], Return (str_value lang)))
  \/ (truthy lang = false /\ exists l,
        detect book_content = Return l
        /\ resolve_lang detect book_content lang = ([EvDetect book_content], Return l))
  \/ (truthy lang = false /\ exists e,
        detect book_content = Raise e
        /\ resolve_lang detect book_content lang
           = ([EvDetect book_content; EvPrint (detection_warning e)], Return (utf8 "zh-cn"))).
Proof.
  unfold resolve_lang, call_detect, try_except.
  destruct (truthy lang); [left; split; reflexivity|].
  right. cbn [negb]. destruct (detect book_content) as [l|e].
  - left. split; [reflexivity|]. exists l. split; reflexivity.
  - right. split; [reflexivity|]. exists e. split; reflexivity.
Qed.

Lemma resolve_lang_writes book_content lang :
  writes (fst (resolve_lang detect book_content lang)) = [].
Proof.
  destruct (resolve_lang_cases book_content lang)
    as [[_ ->] | [[_ (l & _ & ->)] | [_ (e & _ & ->)]]]; reflexivity.
Qed.

Lemma txt_to_epub_supported path out author title id lang content evs l regex uid :
  is_nil path = false ->
  read_file path = Return content ->
  resolve_lang detect content lang = (evs, Return l) ->
  language_settings l = Some (regex, uid) ->
  let dest := output_path os_path_splitext path out in
  let book := packaged_book regex uid l
                (book_title os_path_splitext os_path_split path title) id author content in
  convert path out author title id lang
  = ([EvRead path] ++ evs ++ EvWriteEpub dest book
       :: match write_epub dest book with
          | Return _ => [EvPrint (save_message dest)]
          | Raise _ => []
          end,
     match write_epub dest book with
     | Return _ => Return tt
     | Raise e => Raise e
     end).
Proof.
  intros Hnil Hread Hlang Hset dest book.
  unfold convert, txt_to_epub. rewrite Hnil.
  unfold open_read, bind at 1. rewrite Hread.
  unfold bind at 1. rewrite Hlang, Hset.
  unfold lift. rewrite add_chapters_ok.
  unfold bind, call_write_epub, print.
  subst dest book. unfold output_path, book_title, packaged_book, save_message.
  destruct (write_epub _ _); reflexivity.
Qed.

Lemma txt_to_epub_unsupported path out author title id lang content evs l :
  is_nil path = false ->
  read_file path = Return content ->
  resolve_lang detect content lang = (evs, Return l) ->
  language_settings l = None ->
  convert path out author title id lang
  = ([EvRead path] ++ evs ++ [EvPrint (unsupported_message l)], Return tt).
Proof.
  intros Hnil Hread Hlang Hset.
  unfold convert, txt_to_epub. rewrite Hnil.
  unfold open_read, bind at 1. rewrite Hread.
  unfold bind at 1. rewrite Hlang, Hset.
  reflexivity.
Qed.

Lemma txt_to_epub_writes path out author title id lang content evs l regex uid :
  is_nil path = false ->
  read_file path = Return content ->
  resolve_lang detect content lang = (evs, Return l) ->
  language_settings l = Some (regex, uid) ->
  writes (fst (convert path out author title id lang))
  = [(output_path os_path_splitext path out,
      packaged_book regex uid l
        (book_title os_path_splitext os_path_split path title) id author content)].
Proof.
  intros Hnil Hread Hlang Hset.
  rewrite (txt_to_epub_supported out author title id lang Hnil Hread Hlang Hset).
  cbn [fst]. rewrite !writes_app.
  pose proof (resolve_lang_writes content lang) as Hw. rewrite Hlang in Hw.
  cbn [fst] in Hw. rewrite Hw.
  destruct (write_epub _ _); reflexivity.
Qed.

(** C4 (amended): when the resolved language, explicit or detected, is
    neither 'en' nor 'zh-cn', the conversion prints that the language is
    not supported and returns normally, without raising anything to its
    caller; the writer is never called, so no output file is created. *)
Theorem C4_unsupported_language_returns_without_writing
  path out author title id lang content evs l :
  is_nil path = false ->
  read_file path = Return content ->
  resolve_lang detect content lang = (evs, Return l) ->
  l <> utf8 "en" ->
  l <> utf8 "zh-cn" ->
  convert path out author title id lang
  = ([EvRead path] ++ evs ++ [EvPrint (unsupported_message l)], Return tt)
  /\ writes (fst (convert path out author title id lang)) = [].
Proof.
  intros Hnil Hread Hlang Hen Hzh.
  pose proof (language_settings_none Hen Hzh) as Hset.
  rewrite (txt_to_epub_unsupported out author title id lang Hnil Hread Hlang Hset).
  split; [reflexivity|].
  cbn [fst]. rewrite !writes_app.
  pose proof (resolve_lang_writes content lang) as Hw. rewrite Hlang in Hw.
  cbn [fst] in Hw. now rewrite Hw.
Qed.

(** C5 (amended): for every text and every non-empty explicit language
    tag, the resolver returns the tag unchanged and performs no event:
    the detector is not called, whatever the text holds. *)
Theorem C5_explicit_nonempty_tag_is_kept content tag :
  tag <> [] ->
  resolve_lang detect content (Some tag) = ([], Return tag).
Proof.
  intros Htag. unfold resolve_lang.
  destruct tag as [|c tag]; [contradiction | reflexivity].
Qed.

(** C6: with no explicit tag, when the detector raises an error, the
    resolver returns 'zh-cn' after printing a warning that carries the
    error, and the error does not reach the caller: the conversion goes
    on to hand a book in the Chinese convention to the writer, and ends
    as the writer ends. *)
Theorem C6_detector_failure_falls_back_to_zh_cn
  path out author title id content e :
  is_nil path = false ->
  read_file path = Return content ->
  detect content = Raise e ->
  resolve_lang detect content None
  = ([EvDetect content; EvPrint (detection_warning e)], Return (utf8 "zh-cn"))
  /\ exists dest book after,
      b_language book = utf8 "zh-cn"
      /\ convert path out author title id None
         = ([EvRead path; EvDetect content; EvPrint (detection_warning e);
             EvWriteEpub dest book] ++ after,
            match write_epub dest book with
            | Return _ => Return tt
            | Raise e' => Raise e'
            end).
Proof.
  intros Hnil Hread Hdet.
  assert (Hres : resolve_lang detect content None
                 = ([EvDetect content; EvPrint (detection_warning e)],
                    Return (utf8 "zh-cn"))).
  { unfold resolve_lang, call_detect, try_except. cbn [truthy negb].
    rewrite Hdet. reflexivity. }
  split; [exact Hres|].
  assert (Hset : language_settings (utf8 "zh-cn") = Some (regex_zh, utf8 "目录")).
  { unfold language_settings.
    now rewrite (proj2 (text_eqb_eq (utf8 "zh-cn") (utf8 "zh-cn")) eq_refl). }
  pose proof (txt_to_epub_supported out author title id None Hnil Hread Hres Hset) as H.
  cbv zeta in H. rewrite H.
  eexists _, _, _. split; [|reflexivity].
  rewrite packaged_book_parts. reflexivity.
Qed.

(** C7: when the text of a supported language holds no boundary match,
    no chapter is built, and the conversion still hands the writer a
    package: the metadata, the two navigation items and a spine holding
    only the navigation placeholder, with no content unit and no entry
    in the table of contents.  When the writer accepts it, the conversion
    ends normally. *)
Theorem C7_no_match_still_packages
  path out author title id lang content evs l regex uid :
  is_nil path = false ->
  read_file path = Return content ->
  resolve_lang detect content lang = (evs, Return l) ->
  language_settings l = Some (regex, uid) ->
  re_finditer regex content = [] ->
  let dest := output_path os_path_splitext path out in
  let book :=
    MkEpubBook (book_title os_path_splitext os_path_split path title) l
      (if truthy id then Some (str_value id) else None)
      (if truthy author then [str_value author] else [])
      [ItemNcx; ItemNav uid] [] [SpineId uid] in
  write_epub dest book = Return tt ->
  re_split regex content = [content]
  /\ convert path out author title id lang
     = ([EvRead path] ++ evs ++ [EvWriteEpub dest book; EvPrint (save_message dest)],
        Return tt).
Proof.
  intros Hnil Hread Hlang Hset Hnone dest book Hwrite.
  assert (Hsplit : re_split regex content = [content]).
  { unfold re_split. rewrite split_loop_finditer.
    unfold re_finditer in Hnone. now rewrite Hnone. }
  split; [exact Hsplit|].
  pose proof (txt_to_epub_supported out author title id lang Hnil Hread Hlang Hset) as H.
  cbv zeta in H. rewrite packaged_book_parts in H. cbv zeta in H.
  rewrite Hsplit in H. cbn [tl chapters_from map app] in H.
  fold dest in H. fold book in H. rewrite Hwrite in H. exact H.
Qed.

(** C8: the spine of the written book starts with the navigation
    placeholder, keyed by the label of the language (the Chinese label
    for 'zh-cn', 'Table of Content' for 'en'), and goes on with the
    chapters, which are the content units of the book in the order of
    their headings in the text. *)
Theorem C8_spine_is_navigation_then_chapters
  path out author title id lang content evs l regex uid :
  is_nil path = false ->
  read_file path = Return content ->
  resolve_lang detect content lang = (evs, Return l) ->
  language_settings l = Some (regex, uid) ->
  exists dest book chs,
    writes (fst (convert path out author title id lang)) = [(dest, book)]
    /\ b_spine book = SpineId uid :: map SpineChapter chs
    /\ b_items book = map ItemHtml chs ++ [ItemNcx; ItemNav uid]
    /\ map h_title chs = map (fun f => group1 (f_match f)) (re_finditer regex content)
    /\ ((l = utf8 "zh-cn" /\ uid = utf8 "目录")
        \/ (l = utf8 "en" /\ uid = utf8 "Table of Content")).
Proof.
  intros Hnil Hread Hlang Hset.
  eexists _, _, (map fst (chapters_from l 1 (tl (re_split regex content)))).
  split; [apply (txt_to_epub_writes out author title id lang Hnil Hread Hlang Hset)|].
  rewrite packaged_book_parts. cbv zeta. cbn [b_spine b_items].
  split; [reflexivity|]. split; [reflexivity|]. split.
  - rewrite map_map. unfold re_split, re_finditer. rewrite split_loop_finditer.
    apply chapters_from_matches.
  - destruct (language_settings_cases _ Hset) as [(-> & _ & ->) | (-> & _ & ->)]; auto.
Qed.

(** C10: the list that the split returns has odd length, twice the
    number of boundary matches plus one; the chapter loop ends without an
    index error, and the written book holds exactly one content unit, one
    entry of the table of contents and one spine entry per match, in the
    order of the matches, the last match included whatever follows it. *)
Theorem C10_one_content_unit_per_match
  path out author title id lang content evs l regex uid :
  is_nil path = false ->
  read_file path = Return content ->
  resolve_lang detect content lang = (evs, Return l) ->
  language_settings l = Some (regex, uid) ->
  length (re_split regex content) = 2 * length (re_finditer regex content) + 1
  /\ exists dest book chs links,
      writes (fst (convert path out author title id lang)) = [(dest, book)]
      /\ b_items book = map ItemHtml chs ++ [ItemNcx; ItemNav uid]
      /\ b_toc book = links
      /\ b_spine book = SpineId uid :: map SpineChapter chs
      /\ length chs = length (re_finditer regex content)
      /\ length links = length (re_finditer regex content)
      /\ map h_title chs = map (fun f => group1 (f_match f)) (re_finditer regex content)
      /\ map l_title links = map (fun f => group1 (f_match f)) (re_finditer regex content).
Proof.
  intros Hnil Hread Hlang Hset. split.
  - unfold re_split, re_finditer. rewrite split_loop_finditer. apply splits_of_length.
  - eexists _, _, (map fst (chapters_from l 1 (tl (re_split regex content)))),
             (map snd (chapters_from l 1 (tl (re_split regex content)))).
    split; [apply (txt_to_epub_writes out author title id lang Hnil Hread Hlang Hset)|].
    rewrite packaged_book_parts. cbv zeta. cbn [b_spine b_items b_toc].
    rewrite !length_map, chapters_count, !map_map.
    repeat (split; [reflexivity|]).
    unfold re_split, re_finditer. rewrite split_loop_finditer.
    split; [apply chapters_from_matches | apply chapters_from_links].
Qed.

End ConversionFacts.

(** ** Segmentation *)

(** The text of the two-chapter scenario:
    Chapter 1, Hello, Chapter 2, World, one per line. *)
Definition sample_text : text :=
  utf8 "Chapter 1" ++ [LF] ++ utf8 "Hello" ++ [LF] ++ utf8 "Chapter 2" ++ [LF] ++ utf8 "World".

(** What the pattern of a supported language matches around a heading:
    whitespace before the group and whitespace after it. *)
Definition blank_around (r : mresult) : Prop :=
  exists lead g trail,
    mr_pieces r = [lead; g; trail]
    /\ forallb is_space lead = true /\ forallb is_space trail = true.

(** The text rebuilt from the headings and bodies [h1; b1; h2; b2; ...]
    and the whitespace dropped around each heading. *)
Fixpoint restore (chapters : list text) (ws : list (text * text)) : text :=
  match chapters, ws with
  | h :: b :: rest, (lead, trail) :: ws' => lead ++ h ++ trail ++ b ++ restore rest ws'
  | _, _ => []
  end.

Lemma restore_cover fs : forall s,
  Forall (fun f => blank_around (f_match f)) fs ->
  exists ws : list (text * text),
    length ws = length fs
    /\ Forall (fun w => forallb is_space (fst w) = true
                        /\ forallb is_space (snd w) = true) ws
    /\ cover fs s = hd [] (splits_of fs s) ++ restore (tl (splits_of fs s)) ws.
Proof.
  induction fs as [|f fs IH]; intros s Hall.
  - exists []. simpl. rewrite app_nil_r. auto.
  - inversion Hall as [|? ? Hf Hfs]; subst.
    destruct (IH (mr_rest (f_match f)) Hfs) as (ws & Hlen & Hws & Hcov).
    destruct Hf as (lead & g & trail & Hp & Hlead & Htrail).
    exists ((lead, trail) :: ws). split; [simpl; now rewrite Hlen|].
    split; [constructor; auto|].
    cbn [cover splits_of hd tl]. rewrite (splits_of_cons fs). cbn [restore].
    rewrite Hcov. unfold m_text, group1. rewrite Hp. cbn [concat nth].
    rewrite app_nil_r, <- !app_assoc. reflexivity.
Qed.

Lemma regex_blank_around lang regex uid ma prev s r :
  language_settings lang = Some (regex, uid) ->
  sre_match regex ma (MState prev [] []) s = Some r -> blank_around r.
Proof.
  intros Hset H.
  destruct (language_settings_cases _ Hset) as [(_ & -> & _) | (_ & -> & _)].
  - apply regex_zh_inv in H.
    destruct H as (lead & m & nums & u & line & trail & Hp & Hl & _ & _ & _ & _ & Ht).
    now exists lead, (m :: nums ++ u :: line), trail.
  - apply regex_en_inv in H.
    destruct H as (lead & c & line & trail & Hp & Hl & _ & _ & Ht).
    now exists lead, (c :: line), trail.
Qed.

(** C1 (amended): for every text and every supported language, the
    original text is the preamble followed, for each chapter in order, by
    a run of whitespace, the heading, a run of whitespace and the body.
    The runs are the whitespace the pattern matches around the heading;
    they belong to no heading and to no body, so the headings and bodies
    alone give the text back only up to these runs. *)
Theorem C1_split_restores_text_with_dropped_whitespace lang regex uid s :
  language_settings lang = Some (regex, uid) ->
  exists ws : list (text * text),
    length ws = length (re_finditer regex s)
    /\ length (re_split regex s) = 2 * length ws + 1
    /\ Forall (fun w => forallb is_space (fst w) = true
                        /\ forallb is_space (snd w) = true) ws
    /\ s = hd [] (re_split regex s) ++ restore (tl (re_split regex s)) ws.
Proof.
  intros Hset. unfold re_split, re_finditer. rewrite split_loop_finditer.
  destruct (@restore_cover (finditer regex false None s) s) as (ws & Hlen & Hws & Hcov).
  - apply finditer_Forall. intros ma prev s' r H.
    eapply regex_blank_around; eassumption.
  - exists ws. rewrite splits_of_length, Hlen. repeat split; try assumption.
    now rewrite <- Hcov, finditer_cover.
Qed.

(** C3 (amended): every boundary that the Chinese pattern finds consists,
    after optional whitespace, of a marker, then any number of numeral
    characters, possibly none, then a unit, then the rest of the line. *)
Theorem C3_zh_boundary_has_marker_numerals_unit s f :
  In f (re_finditer regex_zh s) ->
  exists lead m nums u line trail,
    mr_pieces (f_match f) = [lead; m :: nums ++ u :: line; trail]
    /\ group1 (f_match f) = m :: nums ++ u :: line
    /\ forallb is_space lead = true
    /\ mem m zh_markers = true
    /\ forallb (fun c => mem c zh_numerals) nums = true
    /\ mem u zh_units = true
    /\ forallb not_lf line = true.
Proof.
  intros Hin.
  pose proof (finditer_Forall regex_zh zh_match_shape regex_zh_inv false None s) as Hall.
  rewrite Forall_forall in Hall. apply Hall in Hin.
  destruct Hin as (lead & m & nums & u & line & trail & Hp & Hl & Hm & Hn & Hu & Hline & _).
  exists lead, m, nums, u, line, trail.
  unfold group1. rewrite Hp. auto 10.
Qed.

(** C2 (what the code does, against the claim): the English pattern
    asks for one character of the class C, h, a, p, t, e, r and not for
    the word itself, so lines such as apple or hello, or the lines an
    apple a day and the end inside a text, are chapter boundaries. *)
Theorem C2_en_pattern_accepts_lines_without_the_word :
  re_split regex_en (utf8 "apple") = [[]; utf8 "apple"; []]
  /\ re_split regex_en (utf8 "hello") = [[]; utf8 "hello"; []]
  /\ re_split regex_en
       (utf8 "Chapter 1" ++ [LF] ++ utf8 "an apple a day" ++ [LF] ++ utf8 "the end")
     = [[]; utf8 "Chapter 1"; []; utf8 "an apple a day"; []; utf8 "the end"; []]
  /\ re_compile regex_en_source = Some regex_en.
Proof.
  repeat apply conj; vm_compute; reflexivity.
Qed.

Definition sample_chapter_1 : EpubHtml :=
  MkEpubHtml (utf8 "Chapter 1") (utf8 "chap_1.xhtml") (utf8 "en")
             (utf8 "<html><body><p>Hello<br/></p></body></html>").

Definition sample_chapter_2 : EpubHtml :=
  MkEpubHtml (utf8 "Chapter 2") (utf8 "chap_3.xhtml") (utf8 "en")
             (utf8 "<html><body><p>World</p></body></html>").

Lemma resolve_lang_truthy detect content lang :
  truthy lang = true ->
  resolve_lang detect content lang = ([], Return (str_value lang)).
Proof. intros H. unfold resolve_lang. now rewrite H. Qed.

(** C9: the two-chapter text in English splits into an empty preamble
    and the chapters (Chapter 1, Hello with its line feed) and
    (Chapter 2, World); the written book holds exactly these two content
    units, before the two navigation items, and exactly two entries in
    its table of contents, in that order. *)
Theorem C9_two_chapter_scenario
  (read_file detect : text -> result text) (splitext split : text -> text * text)
  (write_epub : text -> EpubBook -> result unit) path out author title id :
  is_nil path = false ->
  read_file path = Return sample_text ->
  re_split regex_en sample_text
  = [[]; utf8 "Chapter 1"; utf8 "Hello" ++ [LF]; utf8 "Chapter 2"; utf8 "World"]
  /\ exists dest book,
      writes (fst (txt_to_epub read_file detect splitext split write_epub
                     path out author title id (Some (utf8 "en"))))
      = [(dest, book)]
      /\ b_items book
         = [ItemHtml sample_chapter_1; ItemHtml sample_chapter_2;
            ItemNcx; ItemNav (utf8 "Table of Content")]
      /\ b_toc book
         = [MkLink (utf8 "chap_1.xhtml") (utf8 "Chapter 1") (utf8 "chap1");
            MkLink (utf8 "chap_3.xhtml") (utf8 "Chapter 2") (utf8 "chap3")]
      /\ b_spine book
         = [SpineId (utf8 "Table of Content");
            SpineChapter sample_chapter_1; SpineChapter sample_chapter_2].
Proof.
  intros Hnil Hread. split; [vm_compute; reflexivity|].
  eexists _, _. split.
  - apply (@txt_to_epub_writes read_file detect splitext split write_epub
             path out author title id (Some (utf8 "en")) sample_text []
             (utf8 "en") regex_en (utf8 "Table of Content") Hnil Hread).
    + apply resolve_lang_truthy. vm_compute. reflexivity.
    + vm_compute. reflexivity.
  - rewrite packaged_book_parts. cbv zeta. cbn [b_items b_toc b_spine].
    repeat apply conj; vm_compute; reflexivity.
Qed.

(** ** Where the code departs from the specification *)

(** C1: headings and bodies of the two-chapter text do not give the
    text back: the line feeds after the two headings are gone. *)
Lemma C1_counterexample :
  concat (re_split regex_en sample_text)
  = utf8 "Chapter 1Hello" ++ [LF] ++ utf8 "Chapter 2World"
  /\ text_eqb (concat (re_split regex_en sample_text)) sample_text = false.
Proof. split; vm_compute; reflexivity. Qed.

Fixpoint drop_while (f : char -> bool) (s : text) : text :=
  match s with
  | c :: s' => if f c then drop_while f s' else s
  | [] => []
  end.

(** The heading of the Chinese convention as the specification words
    it: a marker, a numeral of at least one character, a unit. *)
Definition spec_zh_heading (h : text) : bool :=
  match h with
  | m :: n :: rest =>
    mem m zh_markers && mem n zh_numerals
    && match drop_while (fun c => mem c zh_numerals) rest with
       | u :: _ => mem u zh_units
       | [] => false
       end
  | _ => false
  end.

(** C3: a marker immediately followed by a unit is a boundary. *)
Lemma C3_counterexample :
  map (fun f => group1 (f_match f)) (re_finditer regex_zh (utf8 "第章")) = [utf8 "第章"]
  /\ spec_zh_heading (utf8 "第章") = false
  /\ spec_zh_heading (utf8 "第一章") = true.
Proof. repeat apply conj; vm_compute; reflexivity. Qed.

(** C4: with the tag fr the conversion returns normally. *)
Lemma C4_counterexample :
  txt_to_epub (demo_read (utf8 "book.txt") sample_text) demo_detect_fails
    demo_splitext demo_split demo_write
    (utf8 "book.txt") None None None None (Some (utf8 "fr"))
  = ([EvRead (utf8 "book.txt"); EvPrint (unsupported_message (utf8 "fr"))], Return tt).
Proof. vm_compute. reflexivity. Qed.

(** C5: the empty string passed as the tag is not returned: the
    detector runs and its answer is the language. *)
Lemma C5_counterexample :
  resolve_lang (demo_detect (utf8 "en")) sample_text (Some [])
  = ([EvDetect sample_text], Return (utf8 "en")).
Proof. vm_compute. reflexivity. Qed.

(** ** The theorems at concrete inputs *)

Definition demo_path : text := utf8 "book.txt".

(** A text that ends with a heading: the last chapter has an empty body. *)
Definition heading_last_text : text :=
  utf8 "Chapter 1" ++ [LF] ++ utf8 "Hello" ++ [LF] ++ utf8 "Chapter 2".

Definition plain_text : text := utf8 "no markers here".

Definition zh_sample : text := utf8 "第一章 开始".

Definition zh_sample_match : found :=
  Found [] (MResult [[]; zh_sample; []] (Some 22987%N) []).

Definition no_features : exn :=
  Exn (utf8 "LangDetectException") (utf8 "No features in text.").

Lemma C1_witness :
  language_settings (utf8 "en") = Some (regex_en, utf8 "Table of Content")
  /\ exists ws : list (text * text),
      length ws = length (re_finditer regex_en sample_text)
      /\ length (re_split regex_en sample_text) = 2 * length ws + 1
      /\ Forall (fun w => forallb is_space (fst w) = true
                          /\ forallb is_space (snd w) = true) ws
      /\ sample_text
         = hd [] (re_split regex_en sample_text)
           ++ restore (tl (re_split regex_en sample_text)) ws.
Proof.
  assert (H : language_settings (utf8 "en") = Some (regex_en, utf8 "Table of Content"))
    by (vm_compute; reflexivity).
  split; [exact H|].
  exact (@C1_split_restores_text_with_dropped_whitespace
           (utf8 "en") regex_en (utf8 "Table of Content") sample_text H).
Defined.

Lemma C3_witness :
  In zh_sample_match (re_finditer regex_zh zh_sample)
  /\ exists lead m nums u line trail,
      mr_pieces (f_match zh_sample_match) = [lead; m :: nums ++ u :: line; trail]
      /\ group1 (f_match zh_sample_match) = m :: nums ++ u :: line
      /\ forallb is_space lead = true
      /\ mem m zh_markers = true
      /\ forallb (fun c => mem c zh_numerals) nums = true
      /\ mem u zh_units = true
      /\ forallb not_lf line = true.
Proof.
  assert (H : In zh_sample_match (re_finditer regex_zh zh_sample))
    by (vm_compute; left; reflexivity).
  split; [exact H|].
  exact (@C3_zh_boundary_has_marker_numerals_unit zh_sample zh_sample_match H).
Defined.

Lemma C4_witness :
  txt_to_epub (demo_read demo_path sample_text) (demo_detect (utf8 "fr"))
    demo_splitext demo_split demo_write demo_path None None None None None
  = ([EvRead demo_path] ++ [EvDetect sample_text]
       ++ [EvPrint (unsupported_message (utf8 "fr"))], Return tt)
  /\ writes (fst (txt_to_epub (demo_read demo_path sample_text) (demo_detect (utf8 "fr"))
                    demo_splitext demo_split demo_write
                    demo_path None None None None None)) = [].
Proof.
  apply (@C4_unsupported_language_returns_without_writing
           (demo_read demo_path sample_text) (demo_detect (utf8 "fr"))
           demo_splitext demo_split demo_write
           demo_path None None None None None sample_text
           [EvDetect sample_text] (utf8 "fr")).
  - vm_compute. reflexivity.
  - vm_compute. reflexivity.
  - vm_compute. reflexivity.
  - intros H. vm_compute in H. discriminate H.
  - intros H. vm_compute in H. discriminate H.
Defined.

Lemma C5_witness :
  utf8 "en" <> []
  /\ resolve_lang (demo_detect (utf8 "zh-cn")) zh_sample (Some (utf8 "en"))
     = ([], Return (utf8 "en")).
Proof.
  assert (H : utf8 "en" <> []) by (intros H; vm_compute in H; discriminate H).
  split; [exact H|].
  exact (@C5_explicit_nonempty_tag_is_kept (demo_detect (utf8 "zh-cn")) zh_sample
           (utf8 "en") H).
Defined.

Lemma C6_witness :
  resolve_lang demo_detect_fails sample_text None
  = ([EvDetect sample_text; EvPrint (detection_warning no_features)],
     Return (utf8 "zh-cn"))
  /\ exists dest book after,
      b_language book = utf8 "zh-cn"
      /\ txt_to_epub (demo_read demo_path sample_text) demo_detect_fails
           demo_splitext demo_split demo_write demo_path None None None None None
         = ([EvRead demo_path; EvDetect sample_text;
             EvPrint (detection_warning no_features);
             EvWriteEpub dest book] ++ after,
            match demo_write dest book with
            | Return _ => Return tt
            | Raise e' => Raise e'
            end).
Proof.
  apply (@C6_detector_failure_falls_back_to_zh_cn
           (demo_read demo_path sample_text) demo_detect_fails
           demo_splitext demo_split demo_write
           demo_path None None None None sample_text no_features).
  - vm_compute. reflexivity.
  - vm_compute. reflexivity.
  - reflexivity.
Defined.

Lemma C7_witness :
  re_finditer regex_en plain_text = []
  /\ exists trace,
      txt_to_epub (demo_read demo_path plain_text) demo_detect_fails
        demo_splitext demo_split demo_write
        demo_path None None None None (Some (utf8 "en"))
      = (trace, Return tt).
Proof.
  assert (H : re_finditer regex_en plain_text = []) by (vm_compute; reflexivity).
  split; [exact H|].
  eexists.
  refine (proj2 (@C7_no_match_still_packages
           (demo_read demo_path plain_text) demo_detect_fails
           demo_splitext demo_split demo_write
           demo_path None None None None (Some (utf8 "en")) plain_text []
           (utf8 "en") regex_en (utf8 "Table of Content") _ _ _ _ H _)).
  - vm_compute. reflexivity.
  - vm_compute. reflexivity.
  - vm_compute. reflexivity.
  - vm_compute. reflexivity.
  - reflexivity.
Defined.

Lemma C8_witness :
  exists dest book chs,
    writes (fst (txt_to_epub (demo_read demo_path zh_sample) demo_detect_fails
                   demo_splitext demo_split demo_write
                   demo_path None None None None None))
    = [(dest, book)]
    /\ b_spine book = SpineId (utf8 "目录") :: map SpineChapter chs
    /\ b_items book = map ItemHtml chs ++ [ItemNcx; ItemNav (utf8 "目录")]
    /\ map h_title chs
       = map (fun f => group1 (f_match f)) (re_finditer regex_zh zh_sample)
    /\ ((utf8 "zh-cn" = utf8 "zh-cn" /\ utf8 "目录" = utf8 "目录")
        \/ (utf8 "zh-cn" = utf8 "en" /\ utf8 "目录" = utf8 "Table of Content")).
Proof.
  apply (@C8_spine_is_navigation_then_chapters
           (demo_read demo_path zh_sample) demo_detect_fails
           demo_splitext demo_split demo_write
           demo_path None None None None None zh_sample
           [EvDetect zh_sample; EvPrint (detection_warning no_features)]
           (utf8 "zh-cn") regex_zh (utf8 "目录")).
  - vm_compute. reflexivity.
  - vm_compute. reflexivity.
  - vm_compute. reflexivity.
  - vm_compute. reflexivity.
Defined.

Lemma C9_witness :
  re_split regex_en sample_text
  = [[]; utf8 "Chapter 1"; utf8 "Hello" ++ [LF]; utf8 "Chapter 2"; utf8 "World"]
  /\ exists dest book,
      writes (fst (txt_to_epub (demo_read demo_path sample_text) demo_detect_fails
                     demo_splitext demo_split demo_write
                     demo_path None None None None (Some (utf8 "en"))))
      = [(dest, book)]
      /\ b_items book
         = [ItemHtml sample_chapter_1; ItemHtml sample_chapter_2;
            ItemNcx; ItemNav (utf8 "Table of Content")]
      /\ b_toc book
         = [MkLink (utf8 "chap_1.xhtml") (utf8 "Chapter 1") (utf8 "chap1");
            MkLink (utf8 "chap_3.xhtml") (utf8 "Chapter 2") (utf8 "chap3")]
      /\ b_spine book
         = [SpineId (utf8 "Table of Content");
            SpineChapter sample_chapter_1; SpineChapter sample_chapter_2].
Proof.
  apply (@C9_two_chapter_scenario
           (demo_read demo_path sample_text) demo_detect_fails
           demo_splitext demo_split demo_write
           demo_path None None None None).
  - vm_compute. reflexivity.
  - vm_compute. reflexivity.
Defined.

Lemma C10_witness :
  length (re_finditer regex_en heading_last_text) = 2
  /\ length (re_split regex_en heading_last_text)
     = 2 * length (re_finditer regex_en heading_last_text) + 1
  /\ exists dest book chs links,
      writes (fst (txt_to_epub (demo_read demo_path heading_last_text)
                     (demo_detect (utf8 "en"))
                     demo_splitext demo_split demo_write
                     demo_path None None None None None))
      = [(dest, book)]
      /\ b_items book = map ItemHtml chs ++ [ItemNcx; ItemNav (utf8 "Table of Content")]
      /\ b_toc book = links
      /\ b_spine book = SpineId (utf8 "Table of Content") :: map SpineChapter chs
      /\ length chs = length (re_finditer regex_en heading_last_text)
      /\ length links = length (re_finditer regex_en heading_last_text)
      /\ map h_title chs
         = map (fun f => group1 (f_match f)) (re_finditer regex_en heading_last_text)
      /\ map l_title links
         = map (fun f => group1 (f_match f)) (re_finditer regex_en heading_last_text).
Proof.
  split; [vm_compute; reflexivity|].
  apply (@C10_one_content_unit_per_match
           (demo_read demo_path heading_last_text) (demo_detect (utf8 "en"))
           demo_splitext demo_split demo_write
           demo_path None None None None None heading_last_text
           [EvDetect heading_last_text] (utf8 "en") regex_en (utf8 "Table of Content")).
  - vm_compute. reflexivity.
  - vm_compute. reflexivity.
  - vm_compute. reflexivity.
  - vm_compute. reflexivity.
Defined.

(** * Further properties of the conversion *)

(** ** What exactly the chapter patterns match

    The inversions above say what a match looks like; the equations
    below say which match is found: every repetition of both patterns
    takes all it can, because what follows it cannot start with a
    character of the repeated set (or cannot fail). *)

Fixpoint take_while (f : char -> bool) (s : text) : text :=
  match s with
  | c :: s' => if f c then c :: take_while f s' else []
  | [] => []
  end.

Lemma take_drop_while f s : take_while f s ++ drop_while f s = s.
Proof.
  induction s as [|c s IH]; simpl; [reflexivity|].
  destruct (f c); simpl; [now rewrite IH | reflexivity].
Qed.

Lemma take_while_all f s : forallb f (take_while f s) = true.
Proof.
  induction s as [|c s IH]; simpl; [reflexivity|].
  destruct (f c) eqn:E; simpl; [now rewrite E | reflexivity].
Qed.

Lemma drop_while_head f s c s' : drop_while f s = c :: s' -> f c = false.
Proof.
  induction s as [|x s IH]; simpl; [discriminate|].
  destruct (f x) eqn:E; [exact IH|]. now intros [= <- _].
Qed.

Lemma take_while_app f l c rest :
  forallb f l = true -> f c = false -> take_while f (l ++ c :: rest) = l.
Proof.
  induction l as [|x l IH]; simpl; intros Hl Hc.
  - now rewrite Hc.
  - apply andb_true_iff in Hl. destruct Hl as [Hx Hl]. rewrite Hx.
    now rewrite IH.
Qed.

Lemma drop_while_app f l c rest :
  forallb f l = true -> f c = false -> drop_while f (l ++ c :: rest) = c :: rest.
Proof.
  induction l as [|x l IH]; simpl; intros Hl Hc.
  - now rewrite Hc.
  - apply andb_true_iff in Hl. destruct Hl as [Hx Hl]. rewrite Hx.
    now apply IH.
Qed.

Lemma take_while_all_id f l : forallb f l = true -> take_while f l = l.
Proof.
  induction l as [|x l IH]; simpl; [reflexivity|].
  intros Hl. apply andb_true_iff in Hl. destruct Hl as [Hx Hl].
  now rewrite Hx, IH.
Qed.

Lemma drop_while_all_nil f l : forallb f l = true -> drop_while f l = [].
Proof.
  induction l as [|x l IH]; simpl; [reflexivity|].
  intros Hl. apply andb_true_iff in Hl. destruct Hl as [Hx Hl].
  now rewrite Hx, IH.
Qed.

(** A repetition whose continuation cannot start with a character of
    the repeated set takes the longest run. *)
Lemma max_repeat_det cs k st s :
  (forall st' c s', in_charset cs c = true -> k st' (c :: s') = None) ->
  max_repeat cs k st s
  = k (ms_steps (take_while (in_charset cs) s) st) (drop_while (in_charset cs) s).
Proof.
  intros Hk. revert st. induction s as [|c s IH]; intros st; simpl; [reflexivity|].
  destruct (in_charset cs c) eqn:Ec; [|reflexivity].
  rewrite IH. change (ms_steps (c :: ?l) st) with (ms_steps l (ms_step c st)).
  destruct (k _ _) eqn:E; [reflexivity|]. now apply Hk.
Qed.

(** A repetition whose continuation succeeds after the longest run
    ends there. *)
Lemma max_repeat_greedy cs k st s r :
  k (ms_steps (take_while (in_charset cs) s) st) (drop_while (in_charset cs) s) = Some r ->
  max_repeat cs k st s = Some r.
Proof.
  revert st. induction s as [|c s IH]; intros st; simpl; [easy|].
  destruct (in_charset cs c) eqn:Ec; [|easy].
  change (ms_steps (c :: ?l) st) with (ms_steps l (ms_step c st)).
  intros H. now rewrite (IH _ H).
Qed.

Lemma sre_match_bol p ma st s :
  sre_match (AT_BEGINNING_LINE :: p) ma st s
  = if at_beginning_line (ms_prev st) then sre_match p ma st s else None.
Proof. reflexivity. Qed.

Lemma sre_match_in cs p ma st s :
  sre_match (IN cs :: p) ma st s
  = match s with
    | c :: s' => if in_charset cs c then sre_match p ma (ms_step c st) s' else None
    | [] => None
    end.
Proof. reflexivity. Qed.

Lemma sre_match_repeat cs p ma st s :
  sre_match (MAX_REPEAT cs :: p) ma st s = max_repeat cs (sre_match p ma) st s.
Proof. reflexivity. Qed.

Lemma sre_match_mark p ma st s :
  sre_match (MARK :: p) ma st s = sre_match p ma (ms_mark st) s.
Proof. reflexivity. Qed.

(** The character before the position reached after [l]. *)
Definition prev_after (l : text) (prev : option char) : option char :=
  fold_left (fun _ c => Some c) l prev.

Lemma ms_steps_prev l st : ms_prev (ms_steps l st) = prev_after l (ms_prev st).
Proof.
  revert st. induction l as [|c l IH]; intros st; [reflexivity|].
  change (ms_steps (c :: l) st) with (ms_steps l (ms_step c st)).
  now rewrite IH.
Qed.

Lemma ms_text_steps l st : ms_text (ms_steps l st) = ms_text st ++ l.
Proof.
  revert st. induction l as [|c l IH]; intros st.
  - simpl. now rewrite app_nil_r.
  - change (ms_steps (c :: l) st) with (ms_steps l (ms_step c st)).
    rewrite IH. pose proof (ms_text_step c st l) as H. exact H.
Qed.

(** The end of both patterns, once the heading has begun: the rest of
    the line, then all the whitespace that follows. *)
Definition line_end (s : text) : text := drop_while not_lf s.

Lemma heading_tail ma st s :
  ms_cur st <> [] ->
  sre_match [MAX_REPEAT CS_ANY; MARK; MAX_REPEAT CS_SPACE] ma st s
  = let line := take_while not_lf s in
    let trail := take_while is_space (line_end s) in
    let st' := ms_steps trail (ms_mark (ms_steps line st)) in
    Some (MResult (ms_pieces st') (ms_prev st') (drop_while is_space (line_end s))).
Proof.
  intros Hcur. cbv zeta.
  rewrite sre_match_repeat. apply max_repeat_greedy.
  rewrite sre_match_mark, sre_match_repeat. apply max_repeat_greedy.
  change (in_charset CS_ANY) with not_lf. change (in_charset CS_SPACE) with is_space.
  unfold line_end. cbn [sre_match].
  rewrite all_nil_concat, ms_pieces_text, ms_text_steps, ms_text_mark, ms_text_steps.
  unfold ms_text at 1.
  destruct (ms_cur st) as [|c cur]; [contradiction|].
  cbn [rev]. destruct (concat (rev (ms_done st))); destruct (rev cur);
    cbn [app is_nil]; rewrite andb_false_r; reflexivity.
Qed.

Lemma mem_forallb (P : char -> bool) l c :
  forallb P l = true -> mem c l = true -> P c = true.
Proof.
  intros Hall Hc. unfold mem in Hc. apply existsb_exists in Hc.
  destruct Hc as (x & Hin & Hx). apply N.eqb_eq in Hx. subst x.
  rewrite forallb_forall in Hall. now apply Hall.
Qed.

Lemma en_class_no_space c : mem c en_class = true -> is_space c = false.
Proof.
  intros H. apply negb_true_iff.
  apply (mem_forallb (fun c => negb (is_space c)) en_class); [|exact H].
  vm_compute. reflexivity.
Qed.

Lemma zh_markers_no_space c : mem c zh_markers = true -> is_space c = false.
Proof.
  intros H. apply negb_true_iff.
  apply (mem_forallb (fun c => negb (is_space c)) zh_markers); [|exact H].
  vm_compute. reflexivity.
Qed.

Lemma zh_numeral_no_unit c : mem c zh_numerals = true -> mem c zh_units = false.
Proof.
  intros H. apply negb_true_iff.
  apply (mem_forallb (fun c => negb (mem c zh_units)) zh_numerals); [|exact H].
  vm_compute. reflexivity.
Qed.

(** The match that both patterns report once the heading has started
    with [head]: the heading runs to the end of its line, and the match
    takes all the whitespace after it. *)
Definition heading_result (prev : option char) (lead head s : text) : mresult :=
  let line := take_while not_lf s in
  let trail := take_while is_space (line_end s) in
  MResult [lead; head ++ line; trail]
          (prev_after trail (prev_after line (prev_after head (prev_after lead prev))))
          (drop_while is_space (line_end s)).

Definition en_heading_match (prev : option char) (s : text) : option mresult :=
  if at_beginning_line prev then
    match drop_while is_space s with
    | c :: s2 =>
      if mem c en_class
      then Some (heading_result prev (take_while is_space s) [c] s2)
      else None
    | [] => None
    end
  else None.

Definition is_zh_numeral (c : char) : bool := mem c zh_numerals.

Definition zh_heading_match (prev : option char) (s : text) : option mresult :=
  if at_beginning_line prev then
    match drop_while is_space s with
    | m :: s2 =>
      if mem m zh_markers then
        match drop_while is_zh_numeral s2 with
        | u :: s3 =>
          if mem u zh_units
          then Some (heading_result prev (take_while is_space s)
                       (m :: take_while is_zh_numeral s2 ++ [u]) s3)
          else None
        | [] => None
        end
      else None
    | [] => None
    end
  else None.

Lemma prev_after_app l1 l2 prev :
  prev_after (l1 ++ l2) prev = prev_after l2 (prev_after l1 prev).
Proof. unfold prev_after. apply fold_left_app. Qed.

Ltac prev_simpl :=
  repeat (progress (rewrite ?ms_steps_prev; cbn [ms_prev ms_mark ms_step])).

Lemma regex_en_eq ma prev s :
  sre_match regex_en ma (MState prev [] []) s = en_heading_match prev s.
Proof.
  unfold regex_en, en_heading_match.
  rewrite sre_match_bol. cbn [ms_prev].
  destruct (at_beginning_line prev); [|reflexivity].
  rewrite sre_match_repeat, max_repeat_det.
  - change (in_charset CS_SPACE) with is_space.
    rewrite sre_match_mark, sre_match_in.
    destruct (drop_while is_space s) as [|c s2]; [reflexivity|].
    cbn [in_charset]. destruct (mem c en_class); [|reflexivity].
    rewrite heading_tail by discriminate. cbv zeta. unfold heading_result.
    f_equal. f_equal.
    + pieces_simpl. reflexivity.
    + prev_simpl. reflexivity.
  - intros st' c s' Hc. rewrite sre_match_mark, sre_match_in. cbn [in_charset] in *.
    destruct (mem c en_class) eqn:E; [|reflexivity].
    apply en_class_no_space in E. congruence.
Qed.

Lemma regex_zh_eq ma prev s :
  sre_match regex_zh ma (MState prev [] []) s = zh_heading_match prev s.
Proof.
  unfold regex_zh, zh_heading_match.
  rewrite sre_match_bol. cbn [ms_prev].
  destruct (at_beginning_line prev); [|reflexivity].
  rewrite sre_match_repeat, max_repeat_det.
  - change (in_charset CS_SPACE) with is_space.
    rewrite sre_match_mark, sre_match_in.
    destruct (drop_while is_space s) as [|m s2]; [reflexivity|].
    cbn [in_charset]. destruct (mem m zh_markers); [|reflexivity].
    rewrite sre_match_repeat, max_repeat_det.
    + change (in_charset (CS_LITERALS zh_numerals)) with is_zh_numeral.
      rewrite sre_match_in.
      destruct (drop_while is_zh_numeral s2) as [|u s3]; [reflexivity|].
      cbn [in_charset]. destruct (mem u zh_units); [|reflexivity].
      rewrite heading_tail by discriminate. cbv zeta. unfold heading_result.
      f_equal. f_equal.
      * pieces_simpl. now rewrite <- !app_assoc.
      * prev_simpl.
        change (m :: take_while is_zh_numeral s2 ++ [u])
          with ([m] ++ take_while is_zh_numeral s2 ++ [u]).
        rewrite !prev_after_app. reflexivity.
    + intros st' c s' Hc. rewrite sre_match_in. cbn [in_charset] in *.
      now rewrite (zh_numeral_no_unit _ Hc).
  - intros st' c s' Hc. rewrite sre_match_mark, sre_match_in. cbn [in_charset] in *.
    destruct (mem c zh_markers) eqn:E; [|reflexivity].
    apply zh_markers_no_space in E. congruence.
Qed.

(** ** Headings, bodies and lines *)

Lemma no_space_no_lf c : is_space c = false -> not_lf c = true.
Proof.
  intros H. unfold not_lf. destruct (c =? LF)%N eqn:E; [|reflexivity].
  apply N.eqb_eq in E. subst c. discriminate H.
Qed.

Lemma not_lf_false c : not_lf c = false -> c = LF.
Proof.
  unfold not_lf. destruct (c =? LF)%N eqn:E; [|discriminate].
  intros _. now apply N.eqb_eq.
Qed.

(** A match found in a supported language: where it starts, the
    heading begins with a character that is no whitespace and holds no
    line feed. *)
Definition heading_found (r : mresult) : Prop :=
  exists prev lead head s,
    r = heading_result prev lead head s
    /\ forallb is_space lead = true
    /\ (exists c t, head = c :: t /\ is_space c = false)
    /\ forallb not_lf head = true.

Lemma en_match_found ma prev s r :
  sre_match regex_en ma (MState prev [] []) s = Some r -> heading_found r.
Proof.
  rewrite regex_en_eq. unfold en_heading_match.
  destruct (at_beginning_line prev); [|discriminate].
  destruct (drop_while is_space s) as [|c s2]; [discriminate|].
  destruct (mem c en_class) eqn:Ec; [|discriminate].
  intros [= <-]. exists prev, (take_while is_space s), [c], s2.
  pose proof (en_class_no_space _ Ec) as Hc.
  split; [reflexivity|]. split; [apply take_while_all|].
  split; [now exists c, []|].
  cbn [forallb]. now rewrite (no_space_no_lf _ Hc).
Qed.

Lemma zh_match_found ma prev s r :
  sre_match regex_zh ma (MState prev [] []) s = Some r -> heading_found r.
Proof.
  rewrite regex_zh_eq. unfold zh_heading_match.
  destruct (at_beginning_line prev); [|discriminate].
  destruct (drop_while is_space s) as [|m s2]; [discriminate|].
  destruct (mem m zh_markers) eqn:Em; [|discriminate].
  destruct (drop_while is_zh_numeral s2) as [|u s3]; [discriminate|].
  destruct (mem u zh_units) eqn:Eu; [|discriminate].
  intros [= <-].
  exists prev, (take_while is_space s), (m :: take_while is_zh_numeral s2 ++ [u]), s3.
  pose proof (zh_markers_no_space _ Em) as Hm.
  split; [reflexivity|]. split; [apply take_while_all|].
  split; [now exists m, (take_while is_zh_numeral s2 ++ [u])|].
  cbn [forallb]. rewrite (no_space_no_lf _ Hm), forallb_app. cbn [forallb andb].
  apply andb_true_iff. split.
  - apply forallb_forall. intros x Hx.
    pose proof (take_while_all is_zh_numeral s2) as Hall.
    rewrite forallb_forall in Hall. specialize (Hall x Hx).
    apply (mem_forallb not_lf zh_numerals); [vm_compute; reflexivity | exact Hall].
  - rewrite andb_true_r.
    apply (mem_forallb not_lf zh_units); [vm_compute; reflexivity | exact Eu].
Qed.

Lemma supported_match_found lang regex uid ma prev s r :
  language_settings lang = Some (regex, uid) ->
  sre_match regex ma (MState prev [] []) s = Some r -> heading_found r.
Proof.
  intros Hset H.
  destruct (language_settings_cases _ Hset) as [(_ & -> & _) | (_ & -> & _)].
  - eapply zh_match_found, H.
  - eapply en_match_found, H.
Qed.

Definition starts_with_space (t : text) : bool :=
  match t with
  | c :: _ => is_space c
  | [] => false
  end.

Lemma drop_while_no_space s : starts_with_space (drop_while is_space s) = false.
Proof.
  destruct (drop_while is_space s) as [|c t] eqn:E; [reflexivity|].
  simpl. eapply drop_while_head, E.
Qed.

Lemma line_end_cases s : line_end s = [] \/ exists t, line_end s = LF :: t.
Proof.
  unfold line_end. destruct (drop_while not_lf s) as [|c t] eqn:E; [now left|].
  right. exists t. apply drop_while_head in E. now rewrite (not_lf_false _ E).
Qed.

(** X1: in a supported language every heading that the split returns is
    non-empty, begins with a character that is no whitespace, and holds
    no line feed: a heading never spans two lines. *)
Theorem headings_are_single_nonblank_lines lang regex uid s f :
  language_settings lang = Some (regex, uid) ->
  In f (re_finditer regex s) ->
  exists c t,
    group1 (f_match f) = c :: t
    /\ is_space c = false
    /\ forallb not_lf (group1 (f_match f)) = true.
Proof.
  intros Hset Hin.
  pose proof (@finditer_Forall regex heading_found
                (fun ma prev s r => @supported_match_found _ _ _ ma prev s r Hset)
                false None s) as Hall.
  rewrite Forall_forall in Hall. apply Hall in Hin.
  destruct Hin as (prev & lead & head & s' & -> & _ & (c & t & -> & Hc) & Hhead).
  exists c, (t ++ take_while not_lf s').
  unfold group1, heading_result. cbn [mr_pieces nth]. split; [reflexivity|].
  split; [exact Hc|]. rewrite forallb_app, Hhead. apply take_while_all.
Qed.

(** X2: a heading takes the rest of its line: in the text it is followed by
    a line feed or by the end of the text, and the whitespace that the
    match drops after it starts with that line feed. *)
Theorem headings_run_to_the_end_of_their_line lang regex uid s f :
  language_settings lang = Some (regex, uid) ->
  In f (re_finditer regex s) ->
  exists lead trail,
    mr_pieces (f_match f) = [lead; group1 (f_match f); trail]
    /\ ((trail = [] /\ mr_rest (f_match f) = []) \/ exists t, trail = LF :: t).
Proof.
  intros Hset Hin.
  pose proof (@finditer_Forall regex heading_found
                (fun ma prev s r => @supported_match_found _ _ _ ma prev s r Hset)
                false None s) as Hall.
  rewrite Forall_forall in Hall. apply Hall in Hin.
  destruct Hin as (prev & lead & head & s' & -> & _ & _ & _).
  exists lead, (take_while is_space (line_end s')).
  unfold group1, heading_result. cbn [mr_pieces mr_rest nth]. split; [reflexivity|].
  destruct (line_end_cases s') as [-> | (t & ->)].
  - left. split; reflexivity.
  - right. exists (take_while is_space t). reflexivity.
Qed.

(** The bodies of the chapters: for each match, the text between its
    end and the start of the next match, or the end of the text. *)
Fixpoint bodies_of (fs : list found) : list text :=
  match fs with
  | [] => []
  | f :: fs' =>
    match fs' with
    | [] => mr_rest (f_match f)
    | g :: _ => f_skipped g
    end :: bodies_of fs'
  end.

Lemma finditer_Forall_found p (Q : found -> Prop) :
  (forall ma prev s f, sre_search p ma prev s = Some f -> Q f) ->
  forall ma prev s, Forall Q (finditer p ma prev s).
Proof.
  intros HQ. apply (scan_ind p). intros ma prev s IH.
  rewrite finditer_eq.
  destruct (sre_search p ma prev s) as [f|] eqn:E; [|constructor].
  constructor; [eapply HQ, E | now apply IH].
Qed.

Lemma skipped_head p ma prev s f :
  sre_search p ma prev s = Some f ->
  starts_with_space s = false -> starts_with_space (f_skipped f) = false.
Proof.
  intros H Hs. apply sre_search_consumes in H. destruct H as [H _].
  destruct (f_skipped f) as [|c sk]; [reflexivity|].
  rewrite H in Hs. exact Hs.
Qed.

Lemma bodies_no_leading_space lang regex uid :
  language_settings lang = Some (regex, uid) ->
  forall ma prev s,
    Forall (fun b => starts_with_space b = false) (bodies_of (finditer regex ma prev s)).
Proof.
  intros Hset. apply (scan_ind regex). intros ma prev s IH.
  rewrite finditer_eq.
  destruct (sre_search regex ma prev s) as [f|] eqn:E; [|constructor].
  specialize (IH f eq_refl).
  assert (Hrest : starts_with_space (mr_rest (f_match f)) = false).
  { apply sre_search_match in E. destruct E as (ma' & prev' & s' & E).
    apply (supported_match_found _ _ _ _ Hset) in E.
    destruct E as (pv & lead & head & s2 & -> & _).
    unfold heading_result. cbn [mr_rest]. apply drop_while_no_space. }
  cbn [bodies_of]. constructor; [|exact IH].
  rewrite finditer_eq.
  destruct (sre_search regex _ _ (mr_rest (f_match f))) as [g|] eqn:Eg; [|exact Hrest].
  eapply skipped_head; eassumption.
Qed.

(** X3: in a supported language no chapter body begins with whitespace:
    the blank lines and the indentation that follow a heading line are
    dropped with it. *)
Theorem bodies_never_start_with_whitespace lang regex uid s b :
  language_settings lang = Some (regex, uid) ->
  In b (bodies_of (re_finditer regex s)) ->
  starts_with_space b = false.
Proof.
  intros Hset Hin.
  pose proof (bodies_no_leading_space _ Hset false None s) as Hall.
  rewrite Forall_forall in Hall. now apply Hall.
Qed.

Lemma prev_after_last l prev c :
  prev_after (l ++ [c]) prev = Some c.
Proof. now rewrite prev_after_app. Qed.

Lemma sre_search_line_start p ma prev s f :
  sre_search (AT_BEGINNING_LINE :: p) ma prev s = Some f ->
  at_beginning_line (prev_after (f_skipped f) prev) = true.
Proof.
  revert ma prev f. induction s as [|c s IH]; intros ma prev f; cbn [sre_search].
  - rewrite sre_match_bol. cbn [ms_prev].
    destruct (at_beginning_line prev) eqn:Eb; [|discriminate].
    destruct (sre_match p ma _ []); [|discriminate]. now intros [= <-].
  - rewrite sre_match_bol. cbn [ms_prev].
    destruct (at_beginning_line prev) eqn:Eb.
    + destruct (sre_match p ma _ (c :: s)); [now intros [= <-]|].
      destruct (sre_search _ false (Some c) s) as [[sk r]|] eqn:E; [|discriminate].
      intros [= <-]. apply IH in E. exact E.
    + destruct (sre_search _ false (Some c) s) as [[sk r]|] eqn:E; [|discriminate].
      intros [= <-]. apply IH in E. exact E.
Qed.

Definition ends_line (t : text) : bool :=
  match rev t with
  | [] => true
  | c :: _ => (c =? LF)%N
  end.

Lemma line_start_ends_line l prev :
  l <> [] -> at_beginning_line (prev_after l prev) = ends_line l.
Proof.
  intros Hl. destruct (exists_last Hl) as (l' & c & ->).
  rewrite prev_after_last. unfold ends_line. now rewrite rev_app_distr.
Qed.

Lemma supported_regex_anchored lang regex uid :
  language_settings lang = Some (regex, uid) ->
  exists p, regex = AT_BEGINNING_LINE :: p.
Proof.
  intros Hset.
  destruct (language_settings_cases _ Hset) as [(_ & -> & _) | (_ & -> & _)];
    eexists; reflexivity.
Qed.

(** X4: matching is anchored at line starts, so the split never cuts a
    line: the text skipped before any match, that is the preamble and
    every chapter body that another chapter follows, is empty or ends
    with a line feed. *)
Theorem split_never_cuts_a_line lang regex uid s f :
  language_settings lang = Some (regex, uid) ->
  In f (re_finditer regex s) ->
  ends_line (f_skipped f) = true.
Proof.
  intros Hset Hin.
  destruct (supported_regex_anchored _ Hset) as (p & ->).
  pose proof (@finditer_Forall_found (AT_BEGINNING_LINE :: p)
                (fun f => ends_line (f_skipped f) = true)) as Hall.
  assert (Hf : Forall (fun f => ends_line (f_skipped f) = true)
                      (re_finditer (AT_BEGINNING_LINE :: p) s)).
  { apply Hall. intros ma prev s' g Hg. apply sre_search_line_start in Hg.
    destruct (f_skipped g) as [|c sk] eqn:Esk; [reflexivity|].
    rewrite line_start_ends_line in Hg by discriminate. exact Hg. }
  rewrite Forall_forall in Hf. now apply Hf.
Qed.

Lemma take_while_line line rest :
  forallb not_lf line = true ->
  rest = [] \/ (exists t, rest = LF :: t) ->
  take_while not_lf (line ++ rest) = line.
Proof.
  intros Hline [-> | (t & ->)].
  - rewrite app_nil_r. now apply take_while_all_id.
  - now apply take_while_app.
Qed.

Lemma zh_unit_no_numeral c : mem c zh_units = true -> is_zh_numeral c = false.
Proof.
  intros H. apply negb_true_iff.
  apply (mem_forallb (fun c => negb (is_zh_numeral c)) zh_units); [|exact H].
  vm_compute. reflexivity.
Qed.

Lemma sre_search_here p ma prev s r :
  sre_match p ma (MState prev [] []) s = Some r ->
  sre_search p ma prev s = Some (Found [] r).
Proof. intros H. destruct s; cbn [sre_search]; now rewrite H. Qed.

(** X5: when the first line of the text that is not blank begins, after
    optional whitespace, with one of the letters C, h, a, p, t, e, r (so
    in particular with the word Chapter), the English split has an empty
    preamble and that line, without its indentation, as first heading. *)
Theorem en_first_line_becomes_first_heading lead c line rest :
  forallb is_space lead = true ->
  mem c en_class = true ->
  forallb not_lf line = true ->
  rest = [] \/ (exists t, rest = LF :: t) ->
  exists more,
    re_split regex_en (lead ++ c :: line ++ rest) = [] :: (c :: line) :: more.
Proof.
  intros Hlead Hc Hline Hrest.
  unfold re_split. rewrite split_loop_eq.
  erewrite sre_search_here.
  2:{ rewrite regex_en_eq. unfold en_heading_match. cbn [at_beginning_line].
      rewrite (drop_while_app is_space lead c (line ++ rest) Hlead
                 (en_class_no_space _ Hc)).
      rewrite Hc. reflexivity. }
  eexists. cbn [f_skipped f_match].
  unfold group1, heading_result. cbn [mr_pieces nth].
  rewrite (take_while_line _ Hline Hrest). reflexivity.
Qed.

(** X6: when the first line of the text that is not blank consists,
    after optional whitespace, of a marker, any number of numeral
    characters, a unit and any rest, the Chinese split has an empty
    preamble and that line, without its indentation, as first heading. *)
Theorem zh_first_line_becomes_first_heading lead m nums u line rest :
  forallb is_space lead = true ->
  mem m zh_markers = true ->
  forallb is_zh_numeral nums = true ->
  mem u zh_units = true ->
  forallb not_lf line = true ->
  rest = [] \/ (exists t, rest = LF :: t) ->
  exists more,
    re_split regex_zh (lead ++ m :: nums ++ u :: line ++ rest)
    = [] :: (m :: nums ++ u :: line) :: more.
Proof.
  intros Hlead Hm Hnums Hu Hline Hrest.
  unfold re_split. rewrite split_loop_eq.
  erewrite sre_search_here.
  2:{ rewrite regex_zh_eq. unfold zh_heading_match. cbn [at_beginning_line].
      rewrite (drop_while_app is_space lead m _ Hlead (zh_markers_no_space _ Hm)).
      rewrite Hm.
      rewrite (drop_while_app is_zh_numeral nums u _ Hnums (zh_unit_no_numeral _ Hu)).
      rewrite (take_while_app is_zh_numeral nums u _ Hnums (zh_unit_no_numeral _ Hu)).
      rewrite Hu. reflexivity. }
  eexists. cbn [f_skipped f_match].
  unfold group1, heading_result. cbn [mr_pieces nth].
  rewrite (take_while_line _ Hline Hrest).
  cbn [app]. rewrite <- app_assoc. reflexivity.
Qed.

(** ** The chapters of the written book *)

From Stdlib Require DecimalZ.

(** [str(i)] of two integers is the same text only for the same integer. *)

Definition is_ascii (a : ascii) : Prop := (N_of_ascii a < 128)%N.

Transparent utf8.

Lemma utf8_decode_ascii bs :
  Forall (fun b => (b < 128)%N) bs -> utf8_decode bs = bs.
Proof.
  induction 1 as [|b bs Hb _ IH]; [reflexivity|].
  cbn [utf8_decode]. apply N.ltb_lt in Hb. now rewrite Hb, IH.
Qed.

Lemma utf8_ascii s :
  Forall is_ascii (list_ascii_of_string s) ->
  utf8 s = map N_of_ascii (list_ascii_of_string s).
Proof.
  intros H. unfold utf8. apply utf8_decode_ascii.
  apply Forall_map. exact H.
Qed.

Opaque utf8.

Lemma string_of_uint_ascii d :
  Forall is_ascii (list_ascii_of_string (NilEmpty.string_of_uint d)).
Proof.
  induction d; cbn [NilEmpty.string_of_uint list_ascii_of_string];
    constructor; try assumption; unfold is_ascii; vm_compute; reflexivity.
Qed.

Lemma string_of_int_ascii d :
  Forall is_ascii (list_ascii_of_string (NilZero.string_of_int d)).
Proof.
  assert (Hu : forall u, Forall is_ascii
                 (list_ascii_of_string (NilZero.string_of_uint u))).
  { intros u. destruct u; try apply string_of_uint_ascii.
    cbn. constructor; [unfold is_ascii; vm_compute; reflexivity | constructor]. }
  destruct d; cbn [NilZero.string_of_int list_ascii_of_string]; [apply Hu|].
  constructor; [unfold is_ascii; vm_compute; reflexivity | apply Hu].
Qed.

Lemma N_of_ascii_inj a b : N_of_ascii a = N_of_ascii b -> a = b.
Proof.
  intros H. rewrite <- (ascii_N_embedding a), <- (ascii_N_embedding b). now rewrite H.
Qed.

Lemma map_N_of_ascii_inj l1 l2 :
  map N_of_ascii l1 = map N_of_ascii l2 -> l1 = l2.
Proof.
  revert l2. induction l1 as [|a l1 IH]; intros [|b l2]; simpl; try easy.
  intros [= Hab Hl]. f_equal; [now apply N_of_ascii_inj | now apply IH].
Qed.

Lemma to_int_not_nil z :
  Z.to_int z <> Decimal.Pos Decimal.Nil /\ Z.to_int z <> Decimal.Neg Decimal.Nil.
Proof.
  split; intros H; pose proof (DecimalZ.of_to z) as Hz; rewrite H in Hz;
    cbn in Hz; subst z; discriminate H.
Qed.

Lemma str_of_int_inj a b : str_of_int a = str_of_int b -> a = b.
Proof.
  unfold str_of_int. intros H.
  rewrite !utf8_ascii in H by apply string_of_int_ascii.
  apply map_N_of_ascii_inj in H.
  apply (f_equal string_of_list_ascii) in H.
  rewrite !string_of_list_ascii_of_string in H.
  apply (f_equal NilZero.int_of_string) in H.
  destruct (to_int_not_nil a) as [Ha1 Ha2], (to_int_not_nil b) as [Hb1 Hb2].
  rewrite !NilZero.isi in H by assumption.
  injection H as H. now apply DecimalZ.to_int_inj.
Qed.

Lemma chapter_file_name_inj a b :
  utf8 "chap_" ++ str_of_int a ++ utf8 ".xhtml"
  = utf8 "chap_" ++ str_of_int b ++ utf8 ".xhtml" -> a = b.
Proof.
  intros H. apply app_inv_head, app_inv_tail in H. now apply str_of_int_inj.
Qed.

(** The content units of a book: its [EpubHtml] items, in order. *)
Definition html_items (b : EpubBook) : list EpubHtml :=
  flat_map (fun i => match i with ItemHtml c => [c] | _ => [] end) (b_items b).

Lemma html_items_packaged regex uid lang title id author content :
  html_items (packaged_book regex uid lang title id author content)
  = map fst (chapters_from lang 1 (tl (re_split regex content))).
Proof.
  rewrite packaged_book_parts. cbv zeta. unfold html_items. cbn [b_items].
  rewrite flat_map_app. cbn [flat_map app]. rewrite app_nil_r.
  induction (map fst _) as [|c l IH]; [reflexivity|].
  cbn [map flat_map app]. now rewrite IH.
Qed.

Definition chapter_file_name (i : Z) : text :=
  utf8 "chap_" ++ str_of_int i ++ utf8 ".xhtml".

Lemma chapters_from_file_names lang fs : forall i s,
  map (fun c => h_file_name (fst c)) (chapters_from lang i (tl (splits_of fs s)))
  = map (fun j => chapter_file_name (i + 2 * Z.of_nat j)) (seq 0 (length fs)).
Proof.
  induction fs as [|f fs IH]; intros i s; [reflexivity|].
  cbn [splits_of tl]. rewrite (splits_of_cons fs). cbn [chapters_from map length seq].
  rewrite IH. f_equal.
  - cbn [fst set_content new_chapter h_file_name]. unfold chapter_file_name.
    now rewrite Z.mul_0_r, Z.add_0_r.
  - rewrite <- seq_shift, map_map. apply map_ext. intros j. f_equal. lia.
Qed.

Lemma chapters_from_contents lang fs : forall i s,
  map (fun c => h_content (fst c)) (chapters_from lang i (tl (splits_of fs s)))
  = map chapter_content (bodies_of fs).
Proof.
  induction fs as [|f fs IH]; intros i s; [reflexivity|].
  cbn [splits_of tl]. rewrite (splits_of_cons fs). cbn [chapters_from map bodies_of].
  rewrite IH. f_equal. cbn [fst set_content h_content]. f_equal.
  destruct fs; reflexivity.
Qed.

Definition link_matches (lang : text) (c : EpubHtml * Link) : Prop :=
  l_href (snd c) = h_file_name (fst c)
  /\ l_title (snd c) = h_title (fst c)
  /\ h_lang (fst c) = lang.

Lemma chapters_from_linked lang n : forall rest i,
  length rest <= n -> Forall (link_matches lang) (chapters_from lang i rest).
Proof.
  induction n as [|n IH]; intros rest i Hn.
  - destruct rest; [constructor | simpl in Hn; lia].
  - destruct rest as [|h [|b rest]]; try constructor.
    + repeat split.
    + apply IH. simpl in Hn. lia.
Qed.

Lemma file_names_distinct i n :
  NoDup (map (fun j => chapter_file_name (i + 2 * Z.of_nat j)) (seq 0 n)).
Proof.
  apply NoDup_map_NoDup_ForallPairs; [|apply seq_NoDup].
  intros j k _ _ H. apply chapter_file_name_inj in H. lia.
Qed.

(** X8: the content of a chapter (line 152) never holds a line feed,
    and a body without line feeds is placed between the two wrappers as
    it is: markup characters of the text are not escaped. *)
Theorem chapter_content_has_no_line_feed body :
  forallb not_lf (chapter_content body) = true
  /\ (forallb not_lf body = true ->
      chapter_content body
      = utf8 "<html><body><p>" ++ body ++ utf8 "</p></body></html>").
Proof.
  unfold chapter_content. split.
  - rewrite !forallb_app. apply andb_true_iff. split; [vm_compute; reflexivity|].
    apply andb_true_iff. split; [|vm_compute; reflexivity].
    induction body as [|c body IH]; [reflexivity|].
    cbn [replace_char flat_map]. rewrite forallb_app.
    fold (replace_char LF (utf8 "<br/>") body). rewrite IH, andb_true_r.
    destruct (c =? LF)%N eqn:E; [vm_compute; reflexivity|].
    cbn [forallb]. unfold not_lf. now rewrite E.
  - intros Hb. do 2 f_equal.
    induction body as [|c body IH]; [reflexivity|].
    cbn [forallb] in Hb. apply andb_true_iff in Hb. destruct Hb as [Hc Hb].
    cbn [replace_char flat_map]. fold (replace_char LF (utf8 "<br/>") body).
    rewrite (IH Hb). unfold not_lf in Hc. apply negb_true_iff in Hc. now rewrite Hc.
Qed.

Section BookFacts.

Variable read_file : text -> result text.
Variable detect : text -> result text.
Variable os_path_splitext : text -> text * text.
Variable os_path_split : text -> text * text.
Variable write_epub : text -> EpubBook -> result unit.

Let convert := txt_to_epub read_file detect os_path_splitext os_path_split write_epub.

(** X7: each content unit of the written book wraps the text that lies
    between the end of its heading's match and the start of the next
    match, or the end of the text; the preamble is in no content unit. *)
Theorem contents_are_the_texts_between_matches
  path out author title id lang content evs l regex uid :
  is_nil path = false ->
  read_file path = Return content ->
  resolve_lang detect content lang = (evs, Return l) ->
  language_settings l = Some (regex, uid) ->
  exists dest book,
    writes (fst (convert path out author title id lang)) = [(dest, book)]
    /\ map h_content (html_items book)
       = map chapter_content (bodies_of (re_finditer regex content)).
Proof.
  intros Hnil Hread Hlang Hset. eexists _, _.
  split; [apply (@txt_to_epub_writes read_file detect os_path_splitext os_path_split write_epub
            path out author title id lang content evs l regex uid Hnil Hread Hlang Hset)|].
  rewrite html_items_packaged, map_map.
  unfold re_split, re_finditer. rewrite split_loop_finditer.
  apply chapters_from_contents.
Qed.

(** X9: the k-th content unit (counting from 0) is stored under the name
    chap_(2k+1).xhtml, and no two content units share a file name. *)
Theorem chapter_file_names_are_odd_and_distinct
  path out author title id lang content evs l regex uid :
  is_nil path = false ->
  read_file path = Return content ->
  resolve_lang detect content lang = (evs, Return l) ->
  language_settings l = Some (regex, uid) ->
  exists dest book,
    writes (fst (convert path out author title id lang)) = [(dest, book)]
    /\ map h_file_name (html_items book)
       = map (fun k => chapter_file_name (1 + 2 * Z.of_nat k))
             (seq 0 (length (re_finditer regex content)))
    /\ NoDup (map h_file_name (html_items book)).
Proof.
  intros Hnil Hread Hlang Hset. eexists _, _.
  split; [apply (@txt_to_epub_writes read_file detect os_path_splitext os_path_split write_epub
            path out author title id lang content evs l regex uid Hnil Hread Hlang Hset)|].
  rewrite html_items_packaged, map_map.
  unfold re_split, re_finditer. rewrite split_loop_finditer.
  rewrite chapters_from_file_names. split; [reflexivity|].
  apply file_names_distinct.
Qed.

(** X10: the table of contents has one link per content unit, in the
    same order, whose target is the file name of the unit and whose
    label is its title; every unit carries the language of the book. *)
Theorem table_of_contents_points_at_the_chapters
  path out author title id lang content evs l regex uid :
  is_nil path = false ->
  read_file path = Return content ->
  resolve_lang detect content lang = (evs, Return l) ->
  language_settings l = Some (regex, uid) ->
  exists dest book,
    writes (fst (convert path out author title id lang)) = [(dest, book)]
    /\ map l_href (b_toc book) = map h_file_name (html_items book)
    /\ map l_title (b_toc book) = map h_title (html_items book)
    /\ Forall (fun c => h_lang c = b_language book) (html_items book).
Proof.
  intros Hnil Hread Hlang Hset. eexists _, _.
  split; [apply (@txt_to_epub_writes read_file detect os_path_splitext os_path_split write_epub
            path out author title id lang content evs l regex uid Hnil Hread Hlang Hset)|].
  rewrite html_items_packaged. rewrite packaged_book_parts. cbv zeta.
  cbn [b_toc b_language].
  pose proof (@chapters_from_linked l _ (tl (re_split regex content)) 1 (le_n _)) as Hall.
  induction Hall as [|c cs (Hh & Ht & Hl) _ IH]; [repeat split; constructor|].
  destruct IH as (IH1 & IH2 & IH3). cbn [map]. rewrite Hh, Ht, IH1, IH2.
  repeat split. constructor; assumption.
Qed.

End BookFacts.

(** ** How the conversion ends *)

Section Outcomes.

Variable read_file : text -> result text.
Variable detect : text -> result text.
Variable os_path_splitext : text -> text * text.
Variable os_path_split : text -> text * text.
Variable write_epub : text -> EpubBook -> result unit.

Let convert := txt_to_epub read_file detect os_path_splitext os_path_split write_epub.

Lemma txt_to_epub_no_path out author title id lang :
  convert [] out author title id lang = ([], Return tt).
Proof. reflexivity. Qed.

(** X11: when the text file cannot be read, the error of the read is
    raised to the caller and nothing else happens: the detector is not
    called, nothing is printed and nothing is written. *)
Theorem read_error_is_raised_before_anything_else
  path out author title id lang e :
  is_nil path = false ->
  read_file path = Raise e ->
  convert path out author title id lang = ([EvRead path], Raise e).
Proof.
  intros Hnil Hread. unfold convert, txt_to_epub. rewrite Hnil.
  unfold open_read, bind at 1. now rewrite Hread.
Qed.

(** X12: when the writer raises, its error is raised to the caller,
    and the message that the file was saved is not printed. *)
Theorem write_error_is_raised_without_save_message
  path out author title id lang content evs l regex uid e :
  is_nil path = false ->
  read_file path = Return content ->
  resolve_lang detect content lang = (evs, Return l) ->
  language_settings l = Some (regex, uid) ->
  let dest := output_path os_path_splitext path out in
  let book := packaged_book regex uid l
                (book_title os_path_splitext os_path_split path title) id author content in
  write_epub dest book = Raise e ->
  convert path out author title id lang
  = ([EvRead path] ++ evs ++ [EvWriteEpub dest book], Raise e).
Proof.
  intros Hnil Hread Hlang Hset dest book Hwrite.
  pose proof (@txt_to_epub_supported read_file detect os_path_splitext os_path_split
                write_epub path out author title id lang content evs l regex uid
                Hnil Hread Hlang Hset) as H.
  cbv zeta in H. fold dest in H. fold book in H. rewrite Hwrite in H. exact H.
Qed.

(** The four ways the conversion can go. *)
Lemma txt_to_epub_outcomes path out author title id lang :
  convert path out author title id lang = ([], Return tt)
  \/ (exists e, read_file path = Raise e
        /\ convert path out author title id lang = ([EvRead path], Raise e))
  \/ (exists evs msg,
        writes evs = []
        /\ convert path out author title id lang
           = ([EvRead path] ++ evs ++ [EvPrint msg], Return tt))
  \/ (exists evs dest book,
        writes evs = []
        /\ convert path out author title id lang
           = ([EvRead path] ++ evs ++ EvWriteEpub dest book
                :: match write_epub dest book with
                   | Return _ => [EvPrint (save_message dest)]
                   | Raise _ => []
                   end,
              match write_epub dest book with
              | Return _ => Return tt
              | Raise e => Raise e
              end)).
Proof.
  destruct (is_nil path) eqn:Hnil.
  { left. destruct path; [reflexivity | discriminate]. }
  destruct (read_file path) as [content|e] eqn:Hread.
  2:{ right. left. exists e. split; [reflexivity|].
      now apply read_error_is_raised_before_anything_else. }
  assert (Hres : exists evs l, resolve_lang detect content lang = (evs, Return l)).
  { destruct (resolve_lang_cases detect content lang)
      as [[_ H] | [[_ (l & _ & H)] | [_ (e & _ & H)]]]; eauto. }
  destruct Hres as (evs & l & Hlang).
  pose proof (resolve_lang_writes detect content lang) as Hw.
  rewrite Hlang in Hw. cbn [fst] in Hw.
  destruct (language_settings l) as [[regex uid]|] eqn:Hset.
  - right. right. right. eexists evs, _, _. split; [exact Hw|].
    apply (@txt_to_epub_supported read_file detect os_path_splitext os_path_split
             write_epub path out author title id lang content evs l regex uid
             Hnil Hread Hlang Hset).
  - right. right. left. exists evs, (unsupported_message l). split; [exact Hw|].
    apply (@txt_to_epub_unsupported read_file detect os_path_splitext os_path_split
             write_epub path out author title id lang content evs l
             Hnil Hread Hlang Hset).
Qed.

(** X13: the conversion raises an error only when reading the text file
    or writing the book raised it: an error of the detector never reaches
    the caller, and the chapter loop never runs out of the list. *)
Theorem conversion_raises_only_read_and_write_errors
  path out author title id lang e :
  snd (convert path out author title id lang) = Raise e ->
  read_file path = Raise e
  \/ exists dest book,
       In (EvWriteEpub dest book) (fst (convert path out author title id lang))
       /\ write_epub dest book = Raise e.
Proof.
  destruct (txt_to_epub_outcomes path out author title id lang)
    as [H | [(e' & Hr & H) | [(evs & msg & _ & H) | (evs & dest & book & _ & H)]]];
    rewrite H; cbn [fst snd]; try discriminate.
  - intros [= ->]. now left.
  - destruct (write_epub dest book) as [u|e'] eqn:Hw; [discriminate|].
    intros [= ->]. right. exists dest, book. split; [|exact Hw].
    apply in_or_app. right. apply in_or_app. right. now left.
Qed.

(** X14: whatever the inputs and the collaborators do, the conversion
    asks the writer for at most one file. *)
Theorem conversion_writes_at_most_one_file path out author title id lang :
  length (writes (fst (convert path out author title id lang))) <= 1.
Proof.
  destruct (txt_to_epub_outcomes path out author title id lang)
    as [H | [(e' & Hr & H) | [(evs & msg & Hw & H) | (evs & dest & book & Hw & H)]]];
    rewrite H; cbn [fst]; rewrite ?writes_app, ?Hw; cbn; try lia.
  destruct (write_epub dest book); cbn; lia.
Qed.

(** X15: the written book carries the title, identifier and author that
    were passed, an empty string counting as absent: the title then is
    the stem of the file name, and the book keeps the generated
    identifier and has no author.  Its language is the resolved one, and
    it is written to the path that was passed, or beside the text file. *)
Theorem written_book_metadata
  path out author title id lang content evs l regex uid :
  is_nil path = false ->
  read_file path = Return content ->
  resolve_lang detect content lang = (evs, Return l) ->
  language_settings l = Some (regex, uid) ->
  exists dest book,
    writes (fst (convert path out author title id lang)) = [(dest, book)]
    /\ dest = (if truthy out then str_value out
               else fst (os_path_splitext path) ++ utf8 ".epub")
    /\ b_title book = (if truthy title then str_value title
                       else fst (os_path_splitext (snd (os_path_split path))))
    /\ b_language book = l
    /\ b_identifier book = (if truthy id then Some (str_value id) else None)
    /\ b_authors book = (if truthy author then [str_value author] else []).
Proof.
  intros Hnil Hread Hlang Hset. eexists _, _.
  split; [apply (@txt_to_epub_writes read_file detect os_path_splitext os_path_split
                   write_epub path out author title id lang content evs l regex uid
                   Hnil Hread Hlang Hset)|].
  rewrite packaged_book_parts. cbv zeta.
  cbn [b_title b_language b_identifier b_authors].
  unfold output_path, book_title.
  destruct (truthy out), (truthy title); repeat split.
Qed.

End Outcomes.

(** * The script around the conversion (convert.py, lines 10-80 and 166) *)

(** Modelled from CPython 3.11: the attribute names of a [dict]
    object, as [dir(dict())] lists them.  [hasattr(d, name)] on a plain
    [dict] holds for these names only: the keys of a dictionary are not
    attributes of it. *)
Definition dict_attributes : list string :=
  [ "__class__"; "__class_getitem__"; "__contains__"; "__delattr__";
    "__delitem__"; "__dir__"; "__doc__"; "__eq__"; "__format__"; "__ge__";
    "__getattribute__"; "__getitem__"; "__getstate__"; "__gt__"; "__hash__";
    "__init__"; "__init_subclass__"; "__ior__"; "__iter__"; "__le__";
    "__len__"; "__lt__"; "__ne__"; "__new__"; "__or__"; "__reduce__";
    "__reduce_ex__"; "__repr__"; "__reversed__"; "__ror__"; "__setattr__";
    "__setitem__"; "__sizeof__"; "__str__"; "__subclasshook__"; "clear";
    "copy"; "fromkeys"; "get"; "items"; "keys"; "pop"; "popitem";
    "setdefault"; "update"; "values" ]%string.

Definition hasattr_dict (name : text) : bool :=
  existsb (fun a => text_eqb name (utf8 a)) dict_attributes.

Section Script.

(** What [json.load] gives for a JSON value, and its truth value. *)
Variable value : Type.
Variable value_truthy : value -> bool.

(** The file system, the settings file and the file dialog. *)
Variable home : text.                                  (* Path.home() *)
Variable joinpath : text -> text -> text.              (* the / of pathlib *)
Variable path_exists : text -> bool.                   (* os.path.exists, Path.exists *)
Variable load_settings : text -> result (list (text * value)).
                                                       (* open, json.load, dict *)
Variable tk_root : result unit.                        (* tk.Tk(), root.withdraw() *)
Variable askopenfilename :
  value + text -> option (list (text * text)) -> option text -> text.

Variable read_file : text -> result text.
Variable detect : text -> result text.
Variable os_path_splitext : text -> text * text.
Variable os_path_split : text -> text * text.
Variable write_epub : text -> EpubBook -> result unit.

(** [d[key]] on a dictionary. *)
Fixpoint dict_getitem (d : list (text * value)) (key : text) : result value :=
  match d with
  | [] => Raise (Exn (utf8 "KeyError") key)
  | (k, v) :: d' => if text_eqb k key then Return v else dict_getitem d' key
  end.

Definition settings_path : text :=
  joinpath (joinpath (joinpath (joinpath (joinpath home (utf8 "AppData"))
                                         (utf8 "Roaming"))
                               (utf8 "Code"))
                     (utf8 "User"))
           (utf8 "settings.json").

(** Lines 10-22; [None] is Python's [None]. *)
Definition get_vscode_settings : M (option value) :=
  let home_directory := home in
  let settings_directory := settings_path in
  if path_exists settings_directory then
    settings <- ([EvRead settings_directory], load_settings settings_directory) ;;
    if hasattr_dict (utf8 "z-reader.fileDir") then
      v <- lift (dict_getitem settings (utf8 "z-reader.fileDir")) ;;
      ret (Some v)
    else ret None
  else ret None.

(** Lines 24-37. *)
Definition get_documents_directory : text :=
  let home_directory := home in
  let documents_directory := joinpath home_directory (utf8 "Documents") in
  if path_exists documents_directory then documents_directory
  else joinpath home_directory (utf8 "Documents").

(** [not default_dir] for what [get_vscode_settings] returns. *)
Definition default_dir_given (default_dir : option value) : bool :=
  match default_dir with
  | Some v => value_truthy v
  | None => false
  end.

(** Lines 39-67. *)
Definition select_file (default_dir : option value)
  (file_types : option (list (text * text))) (title : option text) : M text :=
  lift tk_root ;;
  let initialdir :=
    match default_dir with
    | Some v => if negb (default_dir_given default_dir)
                then inr get_documents_directory else inl v
    | None => inr get_documents_directory
    end in
  let file_path := askopenfilename initialdir file_types title in
  (if negb (is_nil file_path)
   then print (utf8 "Selected .txt file: " ++ file_path ++ utf8 ".")
   else print (utf8 "No txt file is selected")) ;;
  ret file_path.

Definition txt_file_types : list (text * text) :=
  [(utf8 "Text files", utf8 "*.txt"); (utf8 "All files", utf8 "*.*")].

Definition txt_dialog_title : text := utf8 "Select a .txt file for epub file conversion".

(** Lines 69-80. *)
Definition select_txt_file (default_directory : option value) : M text :=
  select_file default_directory (Some txt_file_types) (Some txt_dialog_title).

(** Line 166: the script. *)
Definition main : M unit :=
  default_directory <- get_vscode_settings ;;
  txt_file_path <- select_txt_file default_directory ;;
  txt_to_epub read_file detect os_path_splitext os_path_split write_epub
    txt_file_path None None None None None.

Lemma no_such_dict_attribute : hasattr_dict (utf8 "z-reader.fileDir") = false.
Proof. vm_compute. reflexivity. Qed.

(** X16: [get_vscode_settings] never returns the directory of the
    settings: the key is looked up as an attribute of the dictionary,
    which it is not, so whatever the settings file holds the function
    returns [None], or raises what loading the file raised. *)
Theorem get_vscode_settings_returns_none :
  get_vscode_settings
  = if path_exists settings_path
    then ([EvRead settings_path],
          match load_settings settings_path with
          | Return _ => Return None
          | Raise e => Raise e
          end)
    else ([], Return None).
Proof.
  unfold get_vscode_settings. cbv zeta.
  destruct (path_exists settings_path); [|reflexivity].
  rewrite no_such_dict_attribute. unfold bind.
  destruct (load_settings settings_path); reflexivity.
Qed.

(** X17: [get_documents_directory] is the Documents directory of the
    home directory whether that directory exists or not. *)
Theorem get_documents_directory_ignores_existence :
  get_documents_directory = joinpath home (utf8 "Documents").
Proof.
  unfold get_documents_directory. cbv zeta.
  now destruct (path_exists _).
Qed.

Definition documents : text := joinpath home (utf8 "Documents").

(** The file that the dialog of the script returns. *)
Definition chosen_file : text :=
  askopenfilename (inr documents) (Some txt_file_types) (Some txt_dialog_title).

Definition settings_events : list event :=
  if path_exists settings_path then [EvRead settings_path] else [].

Lemma main_unfolded :
  (path_exists settings_path = true -> exists d, load_settings settings_path = Return d) ->
  tk_root = Return tt ->
  main
  = bind (settings_events
            ++ [EvPrint (if negb (is_nil chosen_file)
                         then utf8 "Selected .txt file: " ++ chosen_file ++ utf8 "."
                         else utf8 "No txt file is selected")],
          Return tt)
         (fun _ => txt_to_epub read_file detect os_path_splitext os_path_split
                     write_epub chosen_file None None None None None).
Proof.
  intros Hload Htk. unfold main. rewrite get_vscode_settings_returns_none.
  unfold settings_events.
  assert (Hsel : select_txt_file None
                 = ([EvPrint (if negb (is_nil chosen_file)
                              then utf8 "Selected .txt file: " ++ chosen_file ++ utf8 "."
                              else utf8 "No txt file is selected")],
                    Return chosen_file)).
  { unfold select_txt_file, select_file, lift, chosen_file, documents.
    rewrite Htk, get_documents_directory_ignores_existence.
    unfold bind, print, ret. now destruct (negb _). }
  destruct (path_exists settings_path).
  - destruct (Hload eq_refl) as (d & ->). unfold bind at 1. rewrite Hsel.
    unfold bind. destruct (txt_to_epub _ _ _ _ _ _ _ _ _ _ _). reflexivity.
  - unfold bind at 1. rewrite Hsel.
    unfold bind. destruct (txt_to_epub _ _ _ _ _ _ _ _ _ _ _). reflexivity.
Qed.

(** X18: when the user cancels the dialog, the script prints that no
    file is selected and ends normally: no text file is read, the
    detector is not called and nothing is written. *)
Theorem cancelled_dialog_converts_nothing :
  (path_exists settings_path = true -> exists d, load_settings settings_path = Return d) ->
  tk_root = Return tt ->
  chosen_file = [] ->
  main = (settings_events ++ [EvPrint (utf8 "No txt file is selected")], Return tt).
Proof.
  intros Hload Htk Hcancel. rewrite (main_unfolded Hload Htk), Hcancel.
  cbn [is_nil negb]. unfold bind. cbn [txt_to_epub is_nil ret].
  now rewrite app_nil_r.
Qed.


End Script.

(** ** The further properties at concrete inputs *)

Lemma en_settings :
  language_settings (utf8 "en") = Some (regex_en, utf8 "Table of Content").
Proof. vm_compute. reflexivity. Qed.

Lemma zh_settings :
  language_settings (utf8 "zh-cn") = Some (regex_zh, utf8 "目录").
Proof. vm_compute. reflexivity. Qed.

Definition no_match : found := Found [] (MResult [] None []).

(** The two matches of the two-chapter text. *)
Definition sample_match_1 : found := nth 0 (re_finditer regex_en sample_text) no_match.
Definition sample_match_2 : found := nth 1 (re_finditer regex_en sample_text) no_match.

Lemma headings_are_single_nonblank_lines_witness :
  In sample_match_1 (re_finditer regex_en sample_text)
  /\ exists c t,
      group1 (f_match sample_match_1) = c :: t
      /\ is_space c = false
      /\ forallb not_lf (group1 (f_match sample_match_1)) = true.
Proof.
  assert (H : In sample_match_1 (re_finditer regex_en sample_text))
    by (vm_compute; left; reflexivity).
  split; [exact H|].
  exact (@headings_are_single_nonblank_lines
           (utf8 "en") regex_en (utf8 "Table of Content") sample_text sample_match_1
           en_settings H).
Defined.

Lemma headings_run_to_the_end_of_their_line_witness :
  In sample_match_2 (re_finditer regex_en sample_text)
  /\ exists lead trail,
      mr_pieces (f_match sample_match_2) = [lead; group1 (f_match sample_match_2); trail]
      /\ ((trail = [] /\ mr_rest (f_match sample_match_2) = [])
          \/ exists t, trail = LF :: t).
Proof.
  assert (H : In sample_match_2 (re_finditer regex_en sample_text))
    by (vm_compute; right; left; reflexivity).
  split; [exact H|].
  exact (@headings_run_to_the_end_of_their_line
           (utf8 "en") regex_en (utf8 "Table of Content") sample_text sample_match_2
           en_settings H).
Defined.

(** A Chinese text with a blank line and indentation after the heading. *)
Definition zh_indented_text : text :=
  utf8 "第一章 开始" ++ [LF; LF; 12288%N; 12288%N] ++ utf8 "正文" ++ [LF]
  ++ utf8 "第二章" ++ [LF] ++ utf8 "完".

Lemma bodies_never_start_with_whitespace_witness :
  In (utf8 "正文" ++ [LF]) (bodies_of (re_finditer regex_zh zh_indented_text))
  /\ starts_with_space (utf8 "正文" ++ [LF]) = false.
Proof.
  assert (H : In (utf8 "正文" ++ [LF]) (bodies_of (re_finditer regex_zh zh_indented_text)))
    by (vm_compute; left; reflexivity).
  split; [exact H|].
  exact (@bodies_never_start_with_whitespace
           (utf8 "zh-cn") regex_zh (utf8 "目录") zh_indented_text _ zh_settings H).
Defined.

Lemma split_never_cuts_a_line_witness :
  In sample_match_2 (re_finditer regex_en sample_text)
  /\ f_skipped sample_match_2 = utf8 "Hello" ++ [LF]
  /\ ends_line (f_skipped sample_match_2) = true.
Proof.
  assert (H : In sample_match_2 (re_finditer regex_en sample_text))
    by (vm_compute; right; left; reflexivity).
  split; [exact H|]. split; [vm_compute; reflexivity|].
  exact (@split_never_cuts_a_line
           (utf8 "en") regex_en (utf8 "Table of Content") sample_text sample_match_2
           en_settings H).
Defined.

Lemma en_first_line_becomes_first_heading_witness :
  exists more,
    re_split regex_en ([LF; 32%N; 32%N] ++ 67%N :: utf8 "hapter 1" ++ LF :: utf8 "Hello")
    = [] :: (67%N :: utf8 "hapter 1") :: more.
Proof.
  apply (@en_first_line_becomes_first_heading
           [LF; 32%N; 32%N] 67%N (utf8 "hapter 1") (LF :: utf8 "Hello")).
  - vm_compute. reflexivity.
  - vm_compute. reflexivity.
  - vm_compute. reflexivity.
  - right. exists (utf8 "Hello"). reflexivity.
Defined.

Lemma zh_first_line_becomes_first_heading_witness :
  exists more,
    re_split regex_zh
      ([12288%N] ++ 31532%N :: utf8 "十二" ++ 22238%N :: utf8 " 归来" ++ [])
    = [] :: (31532%N :: utf8 "十二" ++ 22238%N :: utf8 " 归来") :: more.
Proof.
  apply (@zh_first_line_becomes_first_heading
           [12288%N] 31532%N (utf8 "十二") 22238%N (utf8 " 归来") []).
  - vm_compute. reflexivity.
  - vm_compute. reflexivity.
  - vm_compute. reflexivity.
  - vm_compute. reflexivity.
  - vm_compute. reflexivity.
  - left. reflexivity.
Defined.

Lemma contents_are_the_texts_between_matches_witness :
  exists dest book,
    writes (fst (txt_to_epub (demo_read demo_path sample_text) demo_detect_fails
                   demo_splitext demo_split demo_write
                   demo_path None None None None (Some (utf8 "en"))))
    = [(dest, book)]
    /\ map h_content (html_items book)
       = map chapter_content (bodies_of (re_finditer regex_en sample_text)).
Proof.
  apply (@contents_are_the_texts_between_matches
           (demo_read demo_path sample_text) demo_detect_fails
           demo_splitext demo_split demo_write
           demo_path None None None None (Some (utf8 "en")) sample_text []
           (utf8 "en") regex_en (utf8 "Table of Content")).
  - vm_compute. reflexivity.
  - vm_compute. reflexivity.
  - vm_compute. reflexivity.
  - exact en_settings.
Defined.

Lemma chapter_file_names_are_odd_and_distinct_witness :
  exists dest book,
    writes (fst (txt_to_epub (demo_read demo_path sample_text) demo_detect_fails
                   demo_splitext demo_split demo_write
                   demo_path None None None None (Some (utf8 "en"))))
    = [(dest, book)]
    /\ map h_file_name (html_items book)
       = map (fun k => chapter_file_name (1 + 2 * Z.of_nat k))
             (seq 0 (length (re_finditer regex_en sample_text)))
    /\ NoDup (map h_file_name (html_items book)).
Proof.
  apply (@chapter_file_names_are_odd_and_distinct
           (demo_read demo_path sample_text) demo_detect_fails
           demo_splitext demo_split demo_write
           demo_path None None None None (Some (utf8 "en")) sample_text []
           (utf8 "en") regex_en (utf8 "Table of Content")).
  - vm_compute. reflexivity.
  - vm_compute. reflexivity.
  - vm_compute. reflexivity.
  - exact en_settings.
Defined.

Lemma table_of_contents_points_at_the_chapters_witness :
  exists dest book,
    writes (fst (txt_to_epub (demo_read demo_path zh_indented_text) (demo_detect (utf8 "zh-cn"))
                   demo_splitext demo_split demo_write
                   demo_path None None None None None))
    = [(dest, book)]
    /\ map l_href (b_toc book) = map h_file_name (html_items book)
    /\ map l_title (b_toc book) = map h_title (html_items book)
    /\ Forall (fun c => h_lang c = b_language book) (html_items book).
Proof.
  apply (@table_of_contents_points_at_the_chapters
           (demo_read demo_path zh_indented_text) (demo_detect (utf8 "zh-cn"))
           demo_splitext demo_split demo_write
           demo_path None None None None None zh_indented_text
           [EvDetect zh_indented_text] (utf8 "zh-cn") regex_zh (utf8 "目录")).
  - vm_compute. reflexivity.
  - vm_compute. reflexivity.
  - vm_compute. reflexivity.
  - exact zh_settings.
Defined.

Definition missing_path : text := utf8 "missing.txt".

Definition file_not_found : exn := Exn (utf8 "FileNotFoundError") missing_path.

Lemma read_error_is_raised_before_anything_else_witness :
  txt_to_epub (demo_read demo_path sample_text) demo_detect_fails
    demo_splitext demo_split demo_write
    missing_path None None None None None
  = ([EvRead missing_path], Raise file_not_found).
Proof.
  apply (@read_error_is_raised_before_anything_else
           (demo_read demo_path sample_text) demo_detect_fails
           demo_splitext demo_split demo_write
           missing_path None None None None None file_not_found).
  - vm_compute. reflexivity.
  - vm_compute. reflexivity.
Defined.

Definition permission_denied : exn :=
  Exn (utf8 "PermissionError") (utf8 "book.epub").

Definition demo_write_fails : text -> EpubBook -> result unit :=
  fun _ _ => Raise permission_denied.

Lemma write_error_is_raised_without_save_message_witness :
  exists trace,
    txt_to_epub (demo_read demo_path sample_text) demo_detect_fails
      demo_splitext demo_split demo_write_fails
      demo_path None None None None (Some (utf8 "en"))
    = (trace, Raise permission_denied).
Proof.
  eexists.
  apply (@write_error_is_raised_without_save_message
           (demo_read demo_path sample_text) demo_detect_fails
           demo_splitext demo_split demo_write_fails
           demo_path None None None None (Some (utf8 "en")) sample_text []
           (utf8 "en") regex_en (utf8 "Table of Content") permission_denied).
  - vm_compute. reflexivity.
  - vm_compute. reflexivity.
  - vm_compute. reflexivity.
  - exact en_settings.
  - reflexivity.
Defined.

Lemma conversion_raises_only_read_and_write_errors_witness :
  snd (txt_to_epub (demo_read demo_path sample_text) demo_detect_fails
         demo_splitext demo_split demo_write_fails
         demo_path None None None None None)
  = Raise permission_denied
  /\ (demo_read demo_path sample_text demo_path = Raise permission_denied
      \/ exists dest book,
           In (EvWriteEpub dest book)
              (fst (txt_to_epub (demo_read demo_path sample_text) demo_detect_fails
                      demo_splitext demo_split demo_write_fails
                      demo_path None None None None None))
           /\ demo_write_fails dest book = Raise permission_denied).
Proof.
  assert (H : snd (txt_to_epub (demo_read demo_path sample_text) demo_detect_fails
                     demo_splitext demo_split demo_write_fails
                     demo_path None None None None None)
              = Raise permission_denied) by (vm_compute; reflexivity).
  split; [exact H|].
  exact (@conversion_raises_only_read_and_write_errors
           (demo_read demo_path sample_text) demo_detect_fails
           demo_splitext demo_split demo_write_fails
           demo_path None None None None None permission_denied H).
Defined.

Lemma written_book_metadata_witness :
  exists dest book,
    writes (fst (txt_to_epub (demo_read demo_path sample_text) demo_detect_fails
                   demo_splitext demo_split demo_write
                   demo_path (Some []) (Some (utf8 "A. Writer")) (Some []) None
                   (Some (utf8 "en"))))
    = [(dest, book)]
    /\ dest = (if truthy (Some []) then str_value (Some [])
               else fst (demo_splitext demo_path) ++ utf8 ".epub")
    /\ b_title book = (if truthy (Some []) then str_value (Some [])
                       else fst (demo_splitext (snd (demo_split demo_path))))
    /\ b_language book = utf8 "en"
    /\ b_identifier book = (if truthy None then Some (str_value None) else None)
    /\ b_authors book = (if truthy (Some (utf8 "A. Writer"))
                         then [str_value (Some (utf8 "A. Writer"))] else []).
Proof.
  apply (@written_book_metadata
           (demo_read demo_path sample_text) demo_detect_fails
           demo_splitext demo_split demo_write
           demo_path (Some []) (Some (utf8 "A. Writer")) (Some []) None
           (Some (utf8 "en")) sample_text [] (utf8 "en") regex_en
           (utf8 "Table of Content")).
  - vm_compute. reflexivity.
  - vm_compute. reflexivity.
  - vm_compute. reflexivity.
  - exact en_settings.
Defined.

(** A home directory whose settings file records a book directory, and
    a dialog that the user cancels or that returns the demo file. *)
Definition demo_home : text := utf8 "C:/Users/reader".
Definition demo_joinpath (a b : text) : text := a ++ utf8 "/" ++ b.
Definition demo_exists : text -> bool := fun _ => true.
Definition demo_settings : text -> result (list (text * text)) :=
  fun _ => Return [(utf8 "z-reader.fileDir", utf8 "D:/books")].
Definition demo_truthy (v : text) : bool := negb (is_nil v).
Definition demo_cancel : text + text -> option (list (text * text)) -> option text -> text :=
  fun _ _ _ => [].

Lemma cancelled_dialog_converts_nothing_witness :
  main demo_truthy demo_home demo_joinpath demo_exists demo_settings (Return tt)
       demo_cancel (demo_read demo_path sample_text) demo_detect_fails
       demo_splitext demo_split demo_write
  = (settings_events demo_home demo_joinpath demo_exists
       ++ [EvPrint (utf8 "No txt file is selected")], Return tt).
Proof.
  apply (@cancelled_dialog_converts_nothing
           text demo_truthy demo_home demo_joinpath demo_exists demo_settings (Return tt)
           demo_cancel (demo_read demo_path sample_text) demo_detect_fails
           demo_splitext demo_split demo_write).
  - intros _. eexists. reflexivity.
  - reflexivity.
  - reflexivity.
Defined.

